(** * main.py: command line, response selection and the coefficient bootstrap

    A shallow embedding of [src/main.py]: [str2bool], the response selector
    of [main], the per-seed bootstrap of [cte_boostrap] with its two caches,
    and the loop of [main] that drives them.

    Numbers are float64 in the source.  They are kept here as exact rationals
    with one extra value for NaN; rounding is not modelled.  Strings are
    ASCII strings; [str.lower] is ASCII lower-casing. *)

From Stdlib Require Import List String Ascii Bool Arith ZArith QArith Lia.
From Stdlib Require Import Permutation Sorted.
Import ListNotations.
Close Scope Q_scope.
Local Open Scope string_scope.
Local Open Scope list_scope.

(** ** Exceptions and results *)

Inductive exn : Type :=
| NameError (name : string)
| ValueError (msg : string)
| KeyError (label : string)
| IndexError
| TypeError
| ArgumentTypeError (msg : string)
| FileNotFoundError (path : string)
| LinAlgError.

Inductive result (A : Type) : Type :=
| Ok (a : A)
| Raise (e : exn).
Arguments Ok {A} a.
Arguments Raise {A} e.

Definition rbind {A B} (m : result A) (k : A -> result B) : result B :=
  match m with
  | Ok a => k a
  | Raise e => Raise e
  end.

Notation "x <- m ;; k" := (rbind m (fun x => k))
  (at level 61, m at next level, right associativity).

Fixpoint mapM {A B} (f : A -> result B) (xs : list A) : result (list B) :=
  match xs with
  | [] => Ok []
  | x :: rest => y <- f x ;; ys <- mapM f rest ;; Ok (y :: ys)
  end.

(** ** Strings *)

(** [needle in hay] on Python strings. *)
Fixpoint contains (needle hay : string) : bool :=
  String.prefix needle hay
  || match hay with
     | EmptyString => false
     | String _ rest => contains needle rest
     end.

Definition lower_char (c : ascii) : ascii :=
  let n := nat_of_ascii c in
  if ((65 <=? n) && (n <=? 90))%nat then ascii_of_nat (n + 32) else c.

Definition upper_char (c : ascii) : ascii :=
  let n := nat_of_ascii c in
  if ((97 <=? n) && (n <=? 122))%nat then ascii_of_nat (n - 32) else c.

(** [s.lower()] *)
Fixpoint lower (s : string) : string :=
  match s with
  | EmptyString => EmptyString
  | String c rest => String (lower_char c) (lower rest)
  end.

(** [x in (w1, w2, ...)] on strings. *)
Definition str_in (x : string) (ws : list string) : bool :=
  existsb (String.eqb x) ws.

(** [t] spells [s] with the case of any of its letters changed. *)
Inductive case_variant : string -> string -> Prop :=
| cv_nil : case_variant EmptyString EmptyString
| cv_cons (a b : ascii) (s t : string) :
    b = a \/ b = lower_char a \/ b = upper_char a ->
    case_variant s t ->
    case_variant (String a s) (String b t).

(** ** [str2bool] (lines 13-22) *)

(** What [str2bool] may be handed: a bool or a string. *)
Inductive pyarg : Type :=
| PyBool (b : bool)
| PyStr (s : string).

Definition true_words : list string := ["yes"; "true"; "t"; "y"; "1"].
Definition false_words : list string := ["no"; "false"; "f"; "n"; "0"].

Definition str2bool (v : pyarg) : result bool :=
  match v with
  | PyBool b => Ok b
  | PyStr s =>
      if str_in (lower s) true_words then Ok true
      else if str_in (lower s) false_words then Ok false
      else Raise (ArgumentTypeError "Boolean value expected.")
  end.

(** ** Response selection of [main] (lines 141-156) *)

Definition all_responses : list string :=
  ["Yr04_print_knowledge"; "Yr04_literacy_resources";
   "Yr04_oral_language"; "Yr04_print_motivation"].

Definition resolve_responses (arg : string) : result (list string) :=
  let response := lower arg in
  if response =? "all" then Ok all_responses
  else if contains "oral" response then Ok ["Yr04_oral_language"]
  else if contains "literacy" response then Ok ["Yr04_literacy_resources"]
  else if contains "print" response && contains "knowledge" response
       then Ok ["Yr04_print_knowledge"]
  else if contains "print" response && contains "motivation" response
       then Ok ["Yr04_print_motivation"]
  else Raise (ValueError ("Response " ++ response ++ " unrecognized")).

(** The selector as the specification words it: the sentinel, or a match of
    the words that tell one of the four category names from the others. *)
Record category : Type := {
  cat_name : string;
  cat_words : list string
}.

Definition categories : list category :=
  [ {| cat_name := "Yr04_oral_language"; cat_words := ["oral"] |};
    {| cat_name := "Yr04_literacy_resources"; cat_words := ["literacy"] |};
    {| cat_name := "Yr04_print_knowledge"; cat_words := ["print"; "knowledge"] |};
    {| cat_name := "Yr04_print_motivation"; cat_words := ["print"; "motivation"] |} ].

Definition cat_matches (selector : string) (c : category) : bool :=
  forallb (fun w => contains w selector) (cat_words c).

Definition resolve_spec (arg : string) : result (list string) :=
  let selector := lower arg in
  if selector =? "all" then Ok all_responses
  else match find (cat_matches selector) categories with
       | Some c => Ok [cat_name c]
       | None => Raise (ValueError ("Response " ++ selector ++ " unrecognized"))
       end.

(** ** Numbers, tables and files *)

(** A float64 cell: a number, or NaN. *)
Inductive float64 : Type :=
| Num (q : Q)
| NaN.

(** [a == b] on floats: NaN equals nothing. *)
Definition float_eqb (a b : float64) : bool :=
  match a, b with
  | Num p, Num q => Qeq_bool p q
  | _, _ => false
  end.

Definition of_int (n : nat) : float64 := Num (inject_Z (Z.of_nat n)).

(** [v == 0] and [v != 0]; the second is the negation of the first for every
    float, NaN included. *)
Definition is_zero (v : float64) : bool := float_eqb v (of_int 0).
Definition nonzero (v : float64) : bool := negb (is_zero v).

(** [a / n] for a sample size [n].  It is meant for [0 < n]; no statement
    below depends on the quotient by zero. *)
Definition fdiv (a : float64) (n : nat) : float64 :=
  match a with
  | Num p => Num (Qdiv p (inject_Z (Z.of_nat n)))
  | NaN => NaN
  end.

(** A pandas Series: labels with their values, in order. *)
Definition Series : Type := list (string * float64).

Definition series_index (s : Series) : list string := map fst s.

Definition series_get (label : string) (s : Series) : option float64 :=
  option_map snd (find (fun e => fst e =? label) s).

(** [s[labels]]: for each label in turn, the entries that carry it. *)
Definition series_getitem (s : Series) (labels : list string) : Series :=
  flat_map (fun l => filter (fun e => fst e =? l) s) labels.

(** [s[label] = v]: overwrite where the label stands, append otherwise. *)
Definition series_setitem (s : Series) (label : string) (v : float64) : Series :=
  if existsb (fun e => fst e =? label) s
  then map (fun e => if fst e =? label then (label, v) else e) s
  else s ++ [(label, v)].

(** [s[mask].index] for a mask computed cell by cell. *)
Definition index_where (p : float64 -> bool) (s : Series) : list string :=
  series_index (filter (fun e => p (snd e)) s).

(** A column-labelled matrix: the Design Matrix and its resamples. *)
Record Frame : Type := {
  columns : list string;
  rows : list (list float64)
}.

(** A cache table, row by row: each row is the record of one seed, with its
    own labels.  (pandas pads a label that a row lacks with NaN; here the row
    simply lacks it.) *)
Definition DataFrame : Type := list Series.

Definition Disk : Type := list (string * DataFrame).

Definition read_file (d : Disk) (path : string) : option DataFrame :=
  option_map snd (find (fun f => fst f =? path) d).

Definition write_file (path : string) (df : DataFrame) (d : Disk) : Disk :=
  (path, df) :: d.

(** What [read_csv] returns for a file written by [to_csv]: the row index
    comes back as a column named "Unnamed: 0". *)
Definition csv_of (df : DataFrame) : DataFrame :=
  map (fun ir => ("Unnamed: 0", of_int (fst ir)) :: snd ir)
      (combine (seq 0 (List.length df)) df).

(** [df.drop([c for c in df.columns if 'Unnamed' in c], axis='columns')] *)
Definition drop_unnamed (df : DataFrame) : DataFrame :=
  map (filter (fun e => negb (contains "Unnamed" (fst e)))) df.

(** [df['seed']] *)
Definition seed_column (df : DataFrame) : list float64 :=
  map (fun row => match series_get "seed" row with
                  | Some v => v
                  | None => NaN
                  end) df.

(** [.unique()]: the first occurrence of each value. *)
Fixpoint unique (vs : list float64) : list float64 :=
  match vs with
  | [] => []
  | v :: rest => v :: filter (fun u => negb (float_eqb u v)) (unique rest)
  end.

(** [b in seeds] for an integer [b] and an array of floats. *)
Definition seed_in (b : nat) (seeds : list float64) : bool :=
  existsb (fun v => float_eqb v (of_int b)) seeds.

(** Lines 35-42 and 45-52: a cache file, when there is one, with its
    bookkeeping columns dropped, and the seeds it holds.  A cache file is
    taken to have its seed column, as every file that line 100 writes has;
    the KeyError of lines 39 and 49 on a file without one is not modelled. *)
Definition load_cache (d : Disk) (path : string) : DataFrame * list float64 :=
  match read_file d path with
  | Some file =>
      let coeffs := drop_unnamed file in
      (coeffs, unique (seed_column coeffs))
  | None => ([], [])
  end.

(** [X.iloc[inds]] and [y.iloc[inds]]: rows by position, in the order asked. *)
Definition iloc {A} (xs : list A) (inds : list nat) : result (list A) :=
  mapM (fun i => match nth_error xs i with
                 | Some x => Ok x
                 | None => Raise IndexError
                 end) inds.

Definition frame_iloc (X : Frame) (inds : list nat) : result Frame :=
  rs <- iloc (rows X) inds ;;
  Ok {| columns := columns X; rows := rs |}.

(** The entries of [xs] at the positions [inds], in the order of [inds]. *)
Definition rows_at {A} (dflt : A) (xs : list A) (inds : list nat) : list A :=
  map (fun i => nth i xs dflt) inds.

(** Positions at which a label stands among the columns. *)
Fixpoint positions (label : string) (cols : list string) (from : nat) : list nat :=
  match cols with
  | [] => []
  | c :: rest =>
      (if c =? label then [from] else []) ++ positions label rest (S from)
  end.

(** [X[labels]]: the columns with these labels, label by label; a label that
    names no column is a KeyError. *)
Definition frame_getitem (X : Frame) (labels : list string) : result Frame :=
  picks <- mapM (fun l => match positions l (columns X) 0 with
                          | [] => Raise (KeyError l)
                          | ps => Ok (map (fun p => (l, p)) ps)
                          end) labels ;;
  let picked := List.concat picks in
  Ok {| columns := map fst picked;
        rows := map (fun r => map (fun lp => nth (snd lp) r NaN) picked) (rows X) |}.

(** statsmodels hands the fitted values back as a Series over the names of
    the regressors. *)
Definition wrap_params (names : list string) (values : list float64) : result Series :=
  if (List.length names =? List.length values)%nat then Ok (combine names values)
  else Raise (ValueError "Length of values does not match length of index").

(** ** Calls to the collaborators *)

(** What is printed. *)
Inductive printed : Type :=
| ParsedArgs (refit bootstrap : bool) (response : string)
| Banner (response : string)
| ShowTable (df : DataFrame)
| WorkingOn (b : nat).

(** A call that leaves the program: console, solvers, files. *)
Inductive call : Type :=
| Print (what : printed)
| GridSearch (X : Frame) (y : list float64) (grid_size : option nat)
| FitRegularized (endog : list float64) (exog : Frame) (alpha : list float64)
| OLSFit (endog : list float64) (exog : Frame)
| PostSelectiveFit (X : Frame) (y : list float64) (l1 l2 : float64)
| ToCsv (path : string) (df : DataFrame).

(** A call with the bootstrap seed during which it was made, if any. *)
Definition event : Type := (option nat * call)%type.

(** The collaborators of main.py: [data.pull_classroom_data],
    [models.full_grid_search] ([grid_size] is [None] where the caller leaves
    the default), [models.PostSelectiveLasso(...).fit()], the two statsmodels
    fits [OLS(endog, exog).fit_regularized(alpha, L1_wt=1)] and
    [OLS(endog, exog).fit()], each returning the fitted values in the order
    of the regressors, and numpy's generator: [randint seed low high size] is
    the draw of [np.random.randint(low, high, size)] straight after
    [np.random.seed(seed)]. *)
Record External : Type := {
  pull_classroom_data : string -> result (Frame * list float64);
  full_grid_search : Frame -> list float64 -> option nat -> result (float64 * float64);
  fit_regularized : list float64 -> Frame -> list float64 -> result (list float64);
  ols_fit : list float64 -> Frame -> result (list float64);
  post_selective_lasso : Frame -> list float64 -> float64 -> float64 -> result DataFrame;
  randint : nat -> nat -> nat -> nat -> list nat
}.

(** A computation that makes calls and then returns or raises. *)
Definition Eff (A : Type) : Type := (list call * result A)%type.

Definition eret {A} (a : A) : Eff A := ([], Ok a).

Definition ebind {A B} (m : Eff A) (k : A -> Eff B) : Eff B :=
  match snd m with
  | Ok a => (fst m ++ fst (k a), snd (k a))
  | Raise e => (fst m, Raise e)
  end.

(** A step that makes no call. *)
Definition lift {A} (r : result A) : Eff A := ([], r).

(** One call, with what it answers. *)
Definition invoke {A} (c : call) (r : result A) : Eff A := ([c], r).

Notation "x <~ m ;; k" := (ebind m (fun x => k))
  (at level 61, m at next level, right associativity).

Definition at_seed (b : nat) (cs : list call) : list event :=
  map (fun c => (Some b, c)) cs.

Definition at_top (cs : list call) : list event :=
  map (fun c => (None, c)) cs.

(** The files after a run: every [to_csv] rewrites its file. *)
Fixpoint replay (evs : list event) (d : Disk) : Disk :=
  match evs with
  | [] => d
  | (_, ToCsv path df) :: rest => replay rest (write_file path (csv_of df) d)
  | _ :: rest => replay rest d
  end.

Definition is_print (c : call) : bool :=
  match c with Print _ => true | _ => false end.

Definition is_grid_search (c : call) : bool :=
  match c with GridSearch _ _ _ => true | _ => false end.

Definition is_to_csv (c : call) : bool :=
  match c with ToCsv _ _ => true | _ => false end.

Definition is_fit_regularized (c : call) : bool :=
  match c with FitRegularized _ _ _ => true | _ => false end.

(** The calls made during seed [b], in order. *)
Definition calls_of (b : nat) (evs : list event) : list call :=
  flat_map (fun e => match fst e with
                     | Some b' => if (b' =? b)%nat then [snd e] else []
                     | None => []
                     end) evs.

(** The seeds announced as being worked on, in order. *)
Definition working_seeds (evs : list event) : list nat :=
  flat_map (fun e => match e with
                     | (Some b, Print (WorkingOn _)) => [b]
                     | _ => []
                     end) evs.

(** The seed an event belongs to. *)
Definition seed_of (e : event) : option nat := fst e.

(** Events in the order of their seeds. *)
Definition seed_le (e1 e2 : event) : Prop :=
  match seed_of e1, seed_of e2 with
  | Some a, Some b => a <= b
  | _, _ => False
  end.

(** ** The module's global names *)

Inductive pyobj : Type :=
| PyInt (n : nat)
| PyFunction (name : string)
| PyOther.

Definition Globals : Type := list (string * pyobj).

Definition lookup_global (g : Globals) (name : string) : result pyobj :=
  match find (fun e => fst e =? name) g with
  | Some e => Ok (snd e)
  | None => Raise (NameError name)
  end.

(** The names main.py binds at module level: its imports and its three
    functions.  [num_bootstrap_samples] is a local of [main] (line 162) and
    is not among them. *)
Definition module_globals : Globals :=
  [ ("os", PyOther); ("np", PyOther); ("pd", PyOther);
    ("linear_model", PyOther);
    ("pull_classroom_data", PyFunction "pull_classroom_data");
    ("pull_student_data", PyFunction "pull_student_data");
    ("PostSelectiveLasso", PyOther);
    ("full_grid_search", PyFunction "full_grid_search");
    ("sys", PyOther); ("argparse", PyOther);
    ("str2bool", PyFunction "str2bool");
    ("cte_boostrap", PyFunction "cte_boostrap");
    ("main", PyFunction "main") ].

(** [range(name)] for a global name. *)
Definition global_range (g : Globals) (name : string) : result (list nat) :=
  v <- lookup_global g name ;;
  match v with
  | PyInt n => Ok (seq 0 n)
  | _ => Raise TypeError
  end.

(** Lines 78-80: the penalty of each column, [l1 / n] for an interaction
    column and [l2 / n] for any other. *)
Definition penalties (l12 : float64 * float64) (n : nat) (re_X : Frame)
  : list float64 :=
  map (fun c => if contains "interaction" c
                then fdiv (fst l12) n else fdiv (snd l12) n)
      (columns re_X).

(** The coefficients of a cache row: the row without its seed. *)
Definition legacy_coefficients (row : Series) : Series :=
  filter (fun e => negb (fst e =? "seed")) row.

(** The record of a seed, from the coefficients that decide the selection
    and the refitted ones: the zero entries of the first, then the second,
    then the seed. *)
Definition post_selection_record (deciding refitted : Series) (b : nat) : Series :=
  series_setitem (filter (fun e => is_zero (snd e)) deciding ++ refitted)
                 "seed" (of_int b).


(** The two caches of a response, as [cte_boostrap] loads them. *)
Definition current_cache (d : Disk) (response : string) : DataFrame * list float64 :=
  load_cache d ("results/bootstrap/" ++ response ++ "_bootstrap_coeffs.csv").

Definition legacy_cache (d : Disk) (response : string) : DataFrame * list float64 :=
  load_cache d ("results/old/" ++ response ++ "_bootstrap_coeffs.csv").

(** ** [cte_boostrap] (lines 24-100) and [main] (lines 103-184) *)

Section Program.

Variable ext : External.

(** [np.random.randint(low, high = high, size = size)] after
    [np.random.seed(seed)]: asked for no index, numpy returns the empty
    array; asked for some from an empty range, it refuses. *)
Definition np_random_randint (seed low high size : nat) : result (list nat) :=
  if (size =? 0)%nat then Ok []
  else if (high <=? low)%nat then Raise (ValueError "low >= high")
  else Ok (randint ext seed low high size).

(** Lines 61-65: the resample of seed [b]. *)
Definition bootstrap_resample (X : Frame) (y : list float64) (n b : nat)
  : result (Frame * list float64) :=
  sample_inds <- np_random_randint b 0 n n ;;
  re_X <- frame_iloc X sample_inds ;;
  re_y <- iloc y sample_inds ;;
  Ok (re_X, re_y).

(** Line 68: the first legacy row whose seed is [b]. *)
Definition legacy_row (old_coeffs : DataFrame) (b : nat) : result Series :=
  match find (fun row => match series_get "seed" row with
                         | Some v => float_eqb v (of_int b)
                         | None => false
                         end) old_coeffs with
  | Some row => Ok row
  | None => Raise IndexError
  end.

(** Lines 67-84: the coefficients that decide the selection, from the legacy
    cache when it holds the seed, from a regularized fit otherwise. *)
Definition regularized_params (X : Frame) (y : list float64) (n : nat)
    (old_coeffs : DataFrame) (old_precomputed : list float64)
    (re_X : Frame) (re_y : list float64) (b : nat) : Eff Series :=
  if seed_in b old_precomputed then
    result_params <~ lift (legacy_row old_coeffs b) ;;
    let inds := filter (fun c => negb (c =? "seed")) (series_index result_params) in
    eret (series_getitem result_params inds)
  else
    l12 <~ invoke (GridSearch X y (Some 5)) (full_grid_search ext X y (Some 5)) ;;
    let alpha := penalties l12 n re_X in
    values <~ invoke (FitRegularized re_y re_X alpha)
                     (fit_regularized ext re_y re_X alpha) ;;
    lift (wrap_params (columns re_X) values).

(** Lines 86-98: selection, refit on the selected columns, and the record. *)
Definition refit_selected (re_X : Frame) (re_y : list float64)
    (result_params : Series) (b : nat) : Eff Series :=
  let selected := index_where nonzero result_params in
  let nonselected := index_where is_zero result_params in
  exog <~ lift (frame_getitem re_X selected) ;;
  values <~ invoke (OLSFit re_y exog) (ols_fit ext re_y exog) ;;
  selective_coeffs <~ lift (wrap_params (columns exog) values) ;;
  let new_coeffs := series_getitem result_params nonselected ++ selective_coeffs in
  eret (series_setitem new_coeffs "seed" (of_int b)).

(** Lines 59-98: everything one seed does before its record is cached. *)
Definition seed_record (X : Frame) (y : list float64) (n : nat)
    (old_coeffs : DataFrame) (old_precomputed : list float64) (b : nat)
  : Eff Series :=
  _ <~ invoke (Print (WorkingOn b)) (Ok tt) ;;
  re <~ lift (bootstrap_resample X y n b) ;;
  result_params <~ regularized_params X y n old_coeffs old_precomputed
                                      (fst re) (snd re) b ;;
  refit_selected (fst re) (snd re) result_params b.

(** Lines 54-100: the loop over the seeds, with the table [coeffs] it grows. *)
Fixpoint bootstrap_loop (X : Frame) (y : list float64) (n : nat)
    (precomputed : list float64)
    (old_coeffs : DataFrame) (old_precomputed : list float64)
    (bootstrapped_data_path : string)
    (seeds : list nat) (coeffs : DataFrame) : list event * result DataFrame :=
  match seeds with
  | [] => ([], Ok coeffs)
  | b :: rest =>
      if seed_in b precomputed then
        bootstrap_loop X y n precomputed old_coeffs old_precomputed
                       bootstrapped_data_path rest coeffs
      else
        let step := seed_record X y n old_coeffs old_precomputed b in
        match snd step with
        | Raise e => (at_seed b (fst step), Raise e)
        | Ok new_coeffs =>
            let coeffs' := coeffs ++ [new_coeffs] in
            let later := bootstrap_loop X y n precomputed old_coeffs old_precomputed
                                        bootstrapped_data_path rest coeffs' in
            (at_seed b (fst step ++ [ToCsv bootstrapped_data_path coeffs'])
               ++ fst later,
             snd later)
        end
  end.

Definition old_data_path (response : string) : string :=
  "results/old/" ++ response ++ "_bootstrap_coeffs.csv".

Definition bootstrapped_data_path (response : string) : string :=
  "results/bootstrap/" ++ response ++ "_bootstrap_coeffs.csv".

Definition cte_boostrap (g : Globals) (response : string) (d : Disk)
  : list event * result unit :=
  match pull_classroom_data ext response with
  | Raise e => ([], Raise e)
  | Ok (X, y) =>
      let n := List.length (rows X) in
      let cache := load_cache d (bootstrapped_data_path response) in
      let old := load_cache d (old_data_path response) in
      match global_range g "num_bootstrap_samples" with
      | Raise e => ([], Raise e)
      | Ok seeds =>
          let run := bootstrap_loop X y n (snd cache) (fst old) (snd old)
                                    (bootstrapped_data_path response)
                                    seeds (fst cache) in
          (fst run, _ <- snd run ;; Ok tt)
      end
  end.

(** Lines 167-180: print the stored results, or refit and store them. *)
Definition report_or_refit (refit : bool) (response : string) (d : Disk)
  : list event * result unit :=
  let path := ("results/" ++ response ++ ".csv")%string in
  if negb refit then
    match read_file d path with
    | Some df => (at_top [Print (ShowTable df)], Ok tt)
    | None => ([], Raise (FileNotFoundError path))
    end
  else
    match pull_classroom_data ext response with
    | Raise e => ([], Raise e)
    | Ok (X, y) =>
        let fit :=
          l12 <~ invoke (GridSearch X y None) (full_grid_search ext X y None) ;;
          selective_lasso_output <~
            invoke (PostSelectiveFit X y (fst l12) (snd l12))
                   (post_selective_lasso ext X y (fst l12) (snd l12)) ;;
          let kept := map (filter (fun e => negb (contains "trunc" (fst e))))
                          selective_lasso_output in
          invoke (ToCsv path kept) (Ok tt) in
        (at_top (fst fit), snd fit)
    end.

(** Line 184: the call [cte_bootstrap(response = response)], through the
    module's globals. *)
Definition call_cte_bootstrap (g : Globals) (response : string) (d : Disk)
  : list event * result unit :=
  match lookup_global g "cte_bootstrap" with
  | Raise e => ([], Raise e)
  | Ok (PyFunction "cte_boostrap") => cte_boostrap g response d
  | Ok _ => ([], Raise TypeError)
  end.

(** Lines 165-184: the loop over the responses. *)
Fixpoint for_responses (g : Globals) (refit bootstrap : bool)
    (responses : list string) (d : Disk) : list event * result unit :=
  match responses with
  | [] => ([], Ok tt)
  | response :: rest =>
      let banner := at_top [Print (Banner response)] in
      let first := report_or_refit refit response d in
      match snd first with
      | Raise e => (banner ++ fst first, Raise e)
      | Ok _ =>
          let d1 := replay (fst first) d in
          let second := if bootstrap then call_cte_bootstrap g response d1
                        else ([], Ok tt) in
          match snd second with
          | Raise e => (banner ++ fst first ++ fst second, Raise e)
          | Ok _ =>
              let later := for_responses g refit bootstrap rest
                                         (replay (fst second) d1) in
              (banner ++ fst first ++ fst second ++ fst later, snd later)
          end
      end
  end.

(** [main], from the three command-line strings.  Line 160 reseeds numpy's
    generator and line 162 binds the sample count, 50, as a local of [main];
    neither reaches the collaborators, which are taken as functions of their
    arguments, nor the globals that [cte_boostrap] reads. *)
Definition main (g : Globals) (arg_refit arg_bootstrap arg_response : string)
    (d : Disk) : list event * result unit :=
  match str2bool (PyStr arg_refit) with
  | Raise e => ([], Raise e)
  | Ok refit =>
      match str2bool (PyStr arg_bootstrap) with
      | Raise e => ([], Raise e)
      | Ok bootstrap =>
          let parsed := at_top [Print (ParsedArgs refit bootstrap arg_response)] in
          match resolve_responses arg_response with
          | Raise e => (parsed, Raise e)
          | Ok responses =>
              let run := for_responses g refit bootstrap responses d in
              (parsed ++ fst run, snd run)
          end
      end
  end.

End Program.

(** ** A small instance on which the model runs

    Stand-ins for the collaborators, exact on the inputs below: a data set
    of two equal rows, a grid search that answers (4, 1), a regularized fit
    that keeps a regressor (with value 1) when its penalty is below 1, least
    squares through the origin for at most one regressor, and a generator
    that walks round the range. *)

Definition to_Q (v : float64) : Q :=
  match v with
  | Num q => q
  | NaN => 0%Q
  end.

Definition Qsum (qs : list Q) : Q := fold_right Qplus 0%Q qs.

Definition toy_X : Frame :=
  {| columns := ["a"; "a_interaction"];
     rows := [[Num 1%Q; Num 1%Q]; [Num 1%Q; Num 1%Q]] |}.

Definition toy_y : list float64 := [Num 3%Q; Num 3%Q].

Definition toy_lasso (endog : list float64) (exog : Frame) (alpha : list float64)
  : result (list float64) :=
  Ok (map (fun a => if Qle_bool 1%Q (to_Q a) then Num 0%Q else Num 1%Q) alpha).

Definition toy_ols (endog : list float64) (exog : Frame) : result (list float64) :=
  match columns exog with
  | [] => Ok []
  | [_] =>
      let xs := map (fun r => to_Q (nth 0 r NaN)) (rows exog) in
      let ys := map to_Q endog in
      let xy := Qsum (map (fun p => Qmult (fst p) (snd p)) (combine xs ys)) in
      let xx := Qsum (map (fun x => Qmult x x) xs) in
      Ok [Num (Qred (Qdiv xy xx))]
  | _ => Raise LinAlgError
  end.

Definition toy_randint (seed low high size : nat) : list nat :=
  map (fun k => low + (seed + k) mod (high - low)) (seq 0 size).

Definition toy : External :=
  {| pull_classroom_data := fun _ => Ok (toy_X, toy_y);
     full_grid_search := fun _ _ _ => Ok (Num 4%Q, Num 1%Q);
     fit_regularized := toy_lasso;
     ols_fit := toy_ols;
     post_selective_lasso := fun _ _ _ _ => Ok [];
     randint := toy_randint |}.

(** The module's globals with a sample count bound at module level. *)
Definition globals_with_count (N : nat) : Globals :=
  ("num_bootstrap_samples", PyInt N) :: module_globals.

(** A legacy cache that holds seed 0, with a nonzero and a zero coefficient. *)
Definition legacy_disk : Disk :=
  [ (old_data_path "Yr04_oral_language",
     [ [("Unnamed: 0", of_int 0); ("a", Num 5%Q);
        ("a_interaction", Num 0%Q); ("seed", of_int 0)] ]) ].

(** A legacy cache whose record for seed 0 is all zeros. *)
Definition zero_disk : Disk :=
  [ (old_data_path "Yr04_oral_language",
     [ [("Unnamed: 0", of_int 0); ("a", Num 0%Q);
        ("a_interaction", Num 0%Q); ("seed", of_int 0)] ]) ].


(** The stored results [main] prints when it does not refit. *)
Definition results_disk : Disk :=
  [ ("results/Yr04_oral_language.csv", [ [("a", Num 3%Q)] ]) ].


(** ** Notions used to state what a run leaves behind *)

(** The record that the computation of a seed returned, empty if it raised. *)
Definition record_of (step : Eff Series) : Series :=
  match snd step with
  | Ok r => r
  | Raise _ => []
  end.

(** No value of the list equals a later one. *)
Fixpoint seeds_distinct (vs : list float64) : bool :=
  match vs with
  | [] => true
  | v :: rest => negb (existsb (float_eqb v) rest) && seeds_distinct rest
  end.

(** The results file of a response (lines 168 and 180). *)
Definition results_path (response : string) : string :=
  "results/" ++ response ++ ".csv".

(** No label of the table holds the marker of a bookkeeping column. *)
Definition no_unnamed_label (df : DataFrame) : bool :=
  forallb (forallb (fun e => negb (contains "Unnamed" (fst e)))) df.

(** ** Further instances *)

(** A legacy cache whose record for seed 1 keeps both columns: the stand-in
    least squares refuses two regressors, so seed 1 raises. *)
Definition two_column_disk : Disk :=
  [ (old_data_path "Yr04_oral_language",
     [ [("Unnamed: 0", of_int 0); ("a", Num 5%Q);
        ("a_interaction", Num 2%Q); ("seed", of_int 1)] ]) ].

(** A legacy cache whose record for seed 0 has a coefficient for a column
    that the data do not have. *)
Definition foreign_column_disk : Disk :=
  [ (old_data_path "Yr04_oral_language",
     [ [("Unnamed: 0", of_int 0); ("a", Num 5%Q);
        ("b", Num 2%Q); ("seed", of_int 0)] ]) ].

(** The collaborators over a data set with a column and no row. *)
Definition toy_no_rows : External :=
  {| pull_classroom_data := fun _ => Ok ({| columns := ["a"]; rows := [] |}, []);
     full_grid_search := full_grid_search toy;
     fit_regularized := fit_regularized toy;
     ols_fit := ols_fit toy;
     post_selective_lasso := post_selective_lasso toy;
     randint := randint toy |}.

(** The collaborators with a selective fit that reports a coefficient and a
    truncation bound. *)
Definition toy_selective : External :=
  {| pull_classroom_data := pull_classroom_data toy;
     full_grid_search := full_grid_search toy;
     fit_regularized := fit_regularized toy;
     ols_fit := ols_fit toy;
     post_selective_lasso :=
       fun _ _ _ _ => Ok [ [("a", Num 3%Q); ("a_trunc_lower", Num 1%Q)] ];
     randint := randint toy |}.

(** A table with a predictor whose name holds the bookkeeping marker. *)
Definition marked_table : DataFrame :=
  [ [("a", Num 3%Q); ("Unnamed_score", Num 7%Q); ("seed", of_int 0)] ].

(** * Properties *)

(** ** Letters and case *)

Lemma lower_char_idem (c : ascii) : lower_char (lower_char c) = lower_char c.
Proof. destruct c as [[] [] [] [] [] [] [] []]; reflexivity. Qed.

Lemma lower_upper_char (c : ascii) : lower_char (upper_char c) = lower_char c.
Proof. destruct c as [[] [] [] [] [] [] [] []]; reflexivity. Qed.

Lemma char_of_lower (c : ascii) :
  c = lower_char c \/ c = upper_char (lower_char c).
Proof. destruct c as [[] [] [] [] [] [] [] []]; auto. Qed.

Lemma case_variant_lower (s t : string) :
  case_variant s t -> lower t = lower s.
Proof.
  induction 1 as [|a b s t Hab _ IH]; [reflexivity|].
  simpl. rewrite IH. f_equal.
  destruct Hab as [-> | [-> | ->]];
    auto using lower_char_idem, lower_upper_char.
Qed.

Lemma case_variant_of_lower (s : string) : case_variant (lower s) s.
Proof.
  induction s as [|c s IH]; simpl; constructor; auto.
  destruct (char_of_lower c) as [H | H]; auto.
Qed.

Ltac spell_case_variant :=
  repeat first
    [ apply cv_nil
    | apply cv_cons;
      [ first [ left; reflexivity
              | right; left; reflexivity
              | right; right; reflexivity ] | ] ].

Lemma str_in_In (x : string) (ws : list string) :
  str_in x ws = true <-> In x ws.
Proof.
  unfold str_in. rewrite existsb_exists. split.
  - intros [w [Hw Heq]]. apply String.eqb_eq in Heq. now subst.
  - intros H. exists x. split; [assumption | apply String.eqb_refl].
Qed.

(** ** The boolean flags *)

(** C9. [str2bool] answers true on every spelling, in any case, of yes,
    true, t, y and 1, false on every spelling in any case of no, false, f, n
    and 0, and raises the usage error (argparse's ArgumentTypeError) on
    every other string. *)
Theorem str2bool_words :
  (forall w s, In w true_words -> case_variant w s ->
               str2bool (PyStr s) = Ok true)
  /\ (forall w s, In w false_words -> case_variant w s ->
                  str2bool (PyStr s) = Ok false)
  /\ (forall s, (forall w, In w (true_words ++ false_words) -> ~ case_variant w s) ->
                str2bool (PyStr s) = Raise (ArgumentTypeError "Boolean value expected.")).
Proof.
  split; [|split].
  - intros w s Hw Hv. apply case_variant_lower in Hv.
    unfold str2bool. rewrite Hv.
    simpl in Hw; repeat destruct Hw as [<- | Hw]; try reflexivity; contradiction.
  - intros w s Hw Hv. apply case_variant_lower in Hv.
    unfold str2bool. rewrite Hv.
    simpl in Hw; repeat destruct Hw as [<- | Hw]; try reflexivity; contradiction.
  - intros s Hnone. unfold str2bool.
    destruct (str_in (lower s) true_words) eqn:Ht.
    + apply str_in_In in Ht. exfalso.
      apply (Hnone (lower s)); [apply in_or_app; auto | apply case_variant_of_lower].
    + destruct (str_in (lower s) false_words) eqn:Hf; [|reflexivity].
      apply str_in_In in Hf. exfalso.
      apply (Hnone (lower s)); [apply in_or_app; auto | apply case_variant_of_lower].
Qed.

Lemma str2bool_words_witness :
  str2bool (PyStr "YeS") = Ok true
  /\ str2bool (PyStr "FALSE") = Ok false
  /\ str2bool (PyStr "2") = Raise (ArgumentTypeError "Boolean value expected.").
Proof.
  destruct str2bool_words as [Ht [Hf Hn]].
  split; [|split].
  - apply (Ht "yes" "YeS"); [simpl; auto | spell_case_variant].
  - apply (Hf "false" "FALSE"); [simpl; auto 10 | spell_case_variant].
  - apply (Hn "2"). intros w Hw Hv.
    apply case_variant_lower in Hv. simpl in Hv.
    simpl in Hw.
    repeat destruct Hw as [<- | Hw]; try discriminate; contradiction.
Defined.

(** ** The response selector *)

(** C8. The selector of [main] is the selector of the specification: the
    sentinel all names the four fixed responses, any other input names the
    first category whose distinguishing words it contains, those words are
    substrings of that category's name, and an input that matches no
    category is refused (with a ValueError, the source's form of
    UnknownResponseError): [main] then raises before it works on any
    response. *)
Theorem resolve_responses_spec :
  (forall arg, resolve_responses arg = resolve_spec arg)
  /\ resolve_responses "all" = Ok all_responses
  /\ forallb (fun c => str_in (cat_name c) all_responses
                       && forallb (fun w => contains w (cat_name c)) (cat_words c))
             categories = true
  /\ List.length all_responses = 4
  /\ (forall ext g arg_refit arg_bootstrap arg d refit bootstrap e,
        str2bool (PyStr arg_refit) = Ok refit ->
        str2bool (PyStr arg_bootstrap) = Ok bootstrap ->
        resolve_spec arg = Raise e ->
        main ext g arg_refit arg_bootstrap arg d
        = (at_top [Print (ParsedArgs refit bootstrap arg)], Raise e)).
Proof.
  assert (Hspec : forall arg, resolve_responses arg = resolve_spec arg).
  { intros arg. unfold resolve_responses, resolve_spec.
    destruct (lower arg =? "all"); [reflexivity|].
    unfold categories, find, cat_matches, cat_words, cat_name, forallb.
    repeat rewrite andb_true_r.
    destruct (contains "oral" (lower arg)); [reflexivity|].
    destruct (contains "literacy" (lower arg)); [reflexivity|].
    destruct (contains "print" (lower arg)); simpl; [|reflexivity].
    destruct (contains "knowledge" (lower arg)); [reflexivity|].
    destruct (contains "motivation" (lower arg)); reflexivity. }
  split; [exact Hspec|]. repeat split.
  intros ext g arg_refit arg_bootstrap arg d refit bootstrap e Hr Hb He.
  unfold main. rewrite Hr, Hb, Hspec, He. reflexivity.
Qed.

Lemma resolve_responses_spec_witness :
  main toy module_globals "False" "False" "print" []
  = (at_top [Print (ParsedArgs false false "print")],
     Raise (ValueError "Response print unrecognized")).
Proof.
  destruct resolve_responses_spec as [_ [_ [_ [_ Hrefused]]]].
  apply Hrefused; reflexivity.
Defined.



(** ** Computations with calls *)

Lemma ebind_ok_inv {A B} (m : Eff A) (k : A -> Eff B) (b : B) :
  snd (ebind m k) = Ok b ->
  exists a, snd m = Ok a /\ snd (k a) = Ok b
            /\ fst (ebind m k) = fst m ++ fst (k a).
Proof.
  unfold ebind. destruct (snd m) as [a|e]; simpl; [|discriminate].
  intros H. exists a. auto.
Qed.

Lemma in_ebind {A B} (m : Eff A) (k : A -> Eff B) (c : call) :
  In c (fst (ebind m k)) ->
  In c (fst m) \/ exists a, snd m = Ok a /\ In c (fst (k a)).
Proof.
  unfold ebind. destruct (snd m) as [a|e]; cbn [fst]; [|now left].
  intros H. apply in_app_or in H as [H | H]; [now left | right].
  now exists a.
Qed.

(** ** Series *)

Lemma series_get_setitem (s : Series) (l : string) (v : float64) :
  series_get l (series_setitem s l v) = Some v.
Proof.
  unfold series_setitem, series_get.
  destruct (existsb (fun e => fst e =? l) s) eqn:Hex.
  - induction s as [|[k u] s IH]; simpl in *; [discriminate|].
    destruct (k =? l) eqn:Hk; simpl.
    + now rewrite String.eqb_refl.
    + rewrite Hk. simpl in Hex. auto.
  - induction s as [|[k u] s IH]; simpl in *.
    + now rewrite String.eqb_refl.
    + apply orb_false_iff in Hex as [Hk Hex]. rewrite Hk. auto.
Qed.



Lemma filter_label_absent (s : Series) (l : string) :
  ~ In l (series_index s) -> filter (fun e => fst e =? l) s = [].
Proof.
  unfold series_index.
  induction s as [|x s IH]; simpl; [reflexivity|].
  intros Hl. destruct (fst x =? l) eqn:Hx.
  - apply String.eqb_eq in Hx. exfalso. apply Hl. now left.
  - apply IH. intros Hc. apply Hl. now right.
Qed.

Lemma filter_label_unique (s : Series) (e : string * float64) :
  NoDup (series_index s) -> In e s ->
  filter (fun e' => fst e' =? fst e) s = [e].
Proof.
  unfold series_index.
  induction s as [|x s IH]; simpl; [contradiction|].
  intros Hnd Hin. inversion Hnd as [|? ? Hx Hnd']; subst.
  destruct Hin as [-> | Hin].
  - rewrite String.eqb_refl. f_equal. now apply filter_label_absent.
  - destruct (fst x =? fst e) eqn:Hxe.
    + apply String.eqb_eq in Hxe. exfalso. apply Hx.
      rewrite Hxe. now apply in_map.
    + now apply IH.
Qed.

(** With distinct labels, asking a series for the labels of the entries
    that pass a test gives back those entries. *)
Lemma series_getitem_filter (s : Series) (q : string * float64 -> bool) :
  NoDup (series_index s) ->
  series_getitem s (series_index (filter q s)) = filter q s.
Proof.
  intros Hnd. unfold series_getitem.
  assert (Hsub : forall t, incl t s ->
            flat_map (fun l => filter (fun e => fst e =? l) s)
                     (series_index (filter q t)) = filter q t).
  { induction t as [|e t IH]; simpl; intros Hincl; [reflexivity|].
    assert (Ht : incl t s) by (intros z Hz; apply Hincl; now right).
    destruct (q e); simpl.
    - rewrite (filter_label_unique s e Hnd) by (apply Hincl; now left).
      simpl. f_equal. now apply IH.
    - now apply IH. }
  apply Hsub. apply incl_refl.
Qed.

(** ** One seed *)

Section SeedFacts.

Variable ext : External.
Variables (X : Frame) (y : list float64) (n : nat).
Variables (old_coeffs : DataFrame) (old_precomputed : list float64).

Local Abbreviation record := (seed_record ext X y n old_coeffs old_precomputed).
Local Abbreviation regularized :=
  (regularized_params ext X y n old_coeffs old_precomputed).

Lemma regularized_ok_inv (re_X : Frame) (re_y : list float64) (b : nat)
    (rp : Series) :
  snd (regularized re_X re_y b) = Ok rp ->
  (seed_in b old_precomputed = true
   /\ fst (regularized re_X re_y b) = []
   /\ exists row, legacy_row old_coeffs b = Ok row
        /\ rp = series_getitem row
                  (filter (fun c => negb (c =? "seed")) (series_index row)))
  \/ (seed_in b old_precomputed = false
      /\ exists l12 values,
           full_grid_search ext X y (Some 5) = Ok l12
           /\ fit_regularized ext re_y re_X (penalties l12 n re_X) = Ok values
           /\ wrap_params (columns re_X) values = Ok rp
           /\ fst (regularized re_X re_y b)
              = [GridSearch X y (Some 5);
                 FitRegularized re_y re_X (penalties l12 n re_X)]).
Proof.
  unfold regularized_params.
  destruct (seed_in b old_precomputed) eqn:Hleg.
  - intros H. left. split; [reflexivity|].
    apply ebind_ok_inv in H as [row [Hrow [Hrp Hcalls]]].
    simpl in Hrow, Hrp, Hcalls. split; [exact Hcalls|].
    exists row. split; [exact Hrow | congruence].
  - intros H. right. split; [reflexivity|].
    apply ebind_ok_inv in H as [l12 [Hgrid [H Hcalls]]].
    apply ebind_ok_inv in H as [values [Hfit [Hwrap Hcalls']]].
    simpl in Hgrid, Hfit, Hwrap, Hcalls, Hcalls'.
    exists l12, values. repeat split; try assumption.
    rewrite Hcalls. simpl. rewrite Hcalls'. reflexivity.
Qed.

Lemma record_ok_inv (b : nat) (rec : Series) :
  snd (record b) = Ok rec ->
  exists re_X re_y rp exog vals sc,
    bootstrap_resample ext X y n b = Ok (re_X, re_y)
    /\ snd (regularized re_X re_y b) = Ok rp
    /\ frame_getitem re_X (index_where nonzero rp) = Ok exog
    /\ ols_fit ext re_y exog = Ok vals
    /\ wrap_params (columns exog) vals = Ok sc
    /\ rec = series_setitem
               (series_getitem rp (index_where is_zero rp) ++ sc)
               "seed" (of_int b)
    /\ fst (record b)
       = Print (WorkingOn b)
         :: fst (regularized re_X re_y b) ++ [OLSFit re_y exog].
Proof.
  unfold seed_record. intros H.
  apply ebind_ok_inv in H as [[] [_ [H Hc0]]].
  apply ebind_ok_inv in H as [[re_X re_y] [Hre [H Hc1]]].
  apply ebind_ok_inv in H as [rp [Hrp [H Hc2]]].
  unfold refit_selected in H, Hc2.
  apply ebind_ok_inv in H as [exog [Hexog [H Hc3]]].
  apply ebind_ok_inv in H as [vals [Hvals [H Hc4]]].
  apply ebind_ok_inv in H as [sc [Hsc [H Hc5]]].
  simpl in *.
  exists re_X, re_y, rp, exog, vals, sc.
  repeat split; try assumption; try congruence.
  clear Hc0 Hc1 Hc2 Hc3 Hc4 Hc5 H.
  unfold seed_record, refit_selected, ebind, lift, invoke, eret. simpl.
  rewrite Hre. simpl. rewrite Hrp. simpl. rewrite Hexog. simpl.
  rewrite Hvals. simpl. rewrite Hsc. simpl.
  reflexivity.
Qed.

(** The calls of one seed, whether it ends well or not: its announcement
    first, then solver calls only. *)
Lemma record_calls (b : nat) :
  exists rest,
    fst (record b) = Print (WorkingOn b) :: rest
    /\ forallb (fun c => negb (is_print c) && negb (is_to_csv c)) rest = true.
Proof.
  unfold seed_record, ebind at 1. simpl.
  destruct (bootstrap_resample ext X y n b) as [[re_X re_y]|e]; simpl.
  2:{ exists []. unfold ebind. simpl. auto. }
  unfold ebind at 1. simpl.
  unfold regularized_params, refit_selected.
  destruct (seed_in b old_precomputed).
  - unfold ebind, lift, invoke, eret; simpl.
    destruct (legacy_row old_coeffs b) as [row|e]; simpl; [|eexists; eauto].
    destruct (frame_getitem re_X _) as [exog|e]; simpl; [|eexists; eauto].
    destruct (ols_fit ext re_y exog) as [vals|e]; simpl; [|eexists; eauto].
    destruct (wrap_params (columns exog) vals); simpl; eexists; eauto.
  - unfold ebind, lift, invoke, eret; simpl.
    destruct (full_grid_search ext X y (Some 5)) as [l12|e]; simpl;
      [|eexists; eauto].
    destruct (fit_regularized ext re_y re_X _) as [values|e]; simpl;
      [|eexists; eauto].
    destruct (wrap_params (columns re_X) values) as [rp|e]; simpl;
      [|eexists; eauto].
    destruct (frame_getitem re_X _) as [exog|e]; simpl; [|eexists; eauto].
    destruct (ols_fit ext re_y exog) as [vals|e]; simpl; [|eexists; eauto].
    destruct (wrap_params (columns exog) vals); simpl; eexists; eauto.
Qed.

Lemma record_grid_searches (b : nat) (r : Series) :
  snd (record b) = Ok r ->
  filter is_grid_search (fst (record b))
  = if seed_in b old_precomputed then [] else [GridSearch X y (Some 5)].
Proof.
  intros H. apply record_ok_inv in H
    as [re_X [re_y [rp [exog [vals [sc [_ [Hrp [_ [_ [_ [_ ->]]]]]]]]]]]].
  apply regularized_ok_inv in Hrp
    as [[-> [-> _]] | [-> [l12 [values [_ [_ [_ ->]]]]]]]; reflexivity.
Qed.

Lemma regularized_call_inv (re_X : Frame) (re_y : list float64) (b : nat)
    (c : call) :
  In c (fst (regularized re_X re_y b)) ->
  seed_in b old_precomputed = false
  /\ (c = GridSearch X y (Some 5)
      \/ exists l12, full_grid_search ext X y (Some 5) = Ok l12
           /\ c = FitRegularized re_y re_X (penalties l12 n re_X)).
Proof.
  unfold regularized_params.
  destruct (seed_in b old_precomputed).
  - intros H. apply in_ebind in H as [[] | [row [_ []]]].
  - intros H. split; [reflexivity|].
    apply in_ebind in H as [[<- | []] | [l12 [Hgrid H]]]; [now left|].
    right. exists l12. split; [exact Hgrid|].
    apply in_ebind in H as [[<- | []] | [values [_ []]]]. reflexivity.
Qed.

Lemma record_call_inv (b : nat) (c : call) :
  In c (fst (record b)) ->
  c = Print (WorkingOn b)
  \/ exists re_X re_y,
       bootstrap_resample ext X y n b = Ok (re_X, re_y)
       /\ (In c (fst (regularized re_X re_y b))
           \/ exists rp ex,
                snd (regularized re_X re_y b) = Ok rp
                /\ frame_getitem re_X (index_where nonzero rp) = Ok ex
                /\ c = OLSFit re_y ex).
Proof.
  unfold seed_record. intros H.
  apply in_ebind in H as [[<- | []] | [[] [_ H]]]; [now left | right].
  apply in_ebind in H as [[] | [[re_X re_y] [Hre H]]].
  exists re_X, re_y. split; [exact Hre|]. cbn [fst snd] in H.
  apply in_ebind in H as [H | [rp [Hrp H]]]; [now left | right].
  unfold refit_selected in H.
  apply in_ebind in H as [[] | [ex [Hex H]]].
  exists rp, ex. repeat split; try assumption.
  apply in_ebind in H as [[<- | []] | [vals [_ H]]]; [reflexivity|].
  apply in_ebind in H as [[] | [sc [_ []]]].
Qed.

(** Where the regularized fit is called: for a seed the legacy cache does
    not hold, on the resample of that seed, with the penalties that the grid
    search of that very seed gave. *)
Lemma record_fit_regularized (b : nat) (endog : list float64) (exog : Frame)
    (alpha : list float64) :
  In (FitRegularized endog exog alpha) (fst (record b)) ->
  seed_in b old_precomputed = false
  /\ bootstrap_resample ext X y n b = Ok (exog, endog)
  /\ exists l12, full_grid_search ext X y (Some 5) = Ok l12
                 /\ alpha = penalties l12 n exog.
Proof.
  intros H. apply record_call_inv in H
    as [H | [re_X [re_y [Hre [H | [rp [ex [_ [_ H]]]]]]]]]; try discriminate.
  apply regularized_call_inv in H as [Hleg [H | [l12 [Hgrid H]]]];
    [discriminate|].
  inversion H; subst. repeat split; try assumption. now exists l12.
Qed.

(** Where the refit is called: on the resample of the seed, restricted to
    the columns whose deciding coefficient is not zero. *)
Lemma record_ols_fit (b : nat) (endog : list float64) (exog : Frame) :
  In (OLSFit endog exog) (fst (record b)) ->
  exists re_X rp,
    bootstrap_resample ext X y n b = Ok (re_X, endog)
    /\ snd (regularized re_X endog b) = Ok rp
    /\ frame_getitem re_X (index_where nonzero rp) = Ok exog.
Proof.
  intros H. apply record_call_inv in H
    as [H | [re_X [re_y [Hre [H | [rp [ex [Hrp [Hex H]]]]]]]]].
  - discriminate.
  - apply regularized_call_inv in H as [_ [H | [l12 [_ H]]]]; discriminate.
  - inversion H; subst. eauto.
Qed.

End SeedFacts.

(** ** Events by seed *)

Lemma calls_of_app (b : nat) (evs evs' : list event) :
  calls_of b (evs ++ evs') = calls_of b evs ++ calls_of b evs'.
Proof. unfold calls_of. apply flat_map_app. Qed.

Lemma calls_of_at_seed (b b' : nat) (cs : list call) :
  calls_of b (at_seed b' cs) = if (b' =? b)%nat then cs else [].
Proof.
  unfold calls_of, at_seed.
  induction cs as [|c cs IH]; simpl.
  - now destruct (b' =? b)%nat.
  - rewrite IH. now destruct (b' =? b)%nat.
Qed.

Lemma calls_of_none (b : nat) (evs : list event) :
  (forall c, ~ In (Some b, c) evs) -> calls_of b evs = [].
Proof.
  unfold calls_of.
  induction evs as [|[o c] evs IH]; simpl; intros Hno; [reflexivity|].
  rewrite IH by (intros c' Hc'; apply (Hno c'); now right).
  destruct o as [b'|]; [|reflexivity].
  destruct (b' =? b)%nat eqn:Hb; [|reflexivity].
  apply Nat.eqb_eq in Hb. subst b'. exfalso. apply (Hno c). now left.
Qed.

Lemma in_at_seed (b : nat) (cs : list call) (o : option nat) (c : call) :
  In (o, c) (at_seed b cs) <-> o = Some b /\ In c cs.
Proof.
  unfold at_seed. rewrite in_map_iff. split.
  - intros [c' [Heq Hin]]. inversion Heq; subst. auto.
  - intros [-> Hin]. now exists c.
Qed.

Lemma working_seeds_app (evs evs' : list event) :
  working_seeds (evs ++ evs') = working_seeds evs ++ working_seeds evs'.
Proof. unfold working_seeds. apply flat_map_app. Qed.

Lemma working_seeds_quiet (b : nat) (cs : list call) :
  forallb (fun c => negb (is_print c)) cs = true ->
  working_seeds (at_seed b cs) = [].
Proof.
  induction cs as [|c cs IH]; simpl; [reflexivity|].
  intros H. apply andb_true_iff in H as [Hc Hcs].
  rewrite (IH Hcs). now destruct c.
Qed.

Lemma StronglySorted_app {A} (R : A -> A -> Prop) (l1 l2 : list A) :
  StronglySorted R l1 -> StronglySorted R l2 ->
  (forall a b, In a l1 -> In b l2 -> R a b) ->
  StronglySorted R (l1 ++ l2).
Proof.
  induction l1 as [|a l1 IH]; simpl; intros H1 H2 H12; [assumption|].
  inversion H1 as [|? ? Hs Hall]; subst. constructor.
  - apply IH; auto.
  - apply Forall_app. split; [assumption|].
    apply Forall_forall. intros b Hb. apply H12; auto.
Qed.

Lemma at_seed_sorted (b : nat) (cs : list call) :
  StronglySorted seed_le (at_seed b cs).
Proof.
  induction cs as [|c cs IH]; simpl; constructor; [assumption|].
  apply Forall_forall. intros [o c'] Hin.
  apply in_at_seed in Hin as [-> _]. unfold seed_le. simpl. lia.
Qed.

(** ** The loop over the seeds *)

Section LoopFacts.

Variable ext : External.
Variables (X : Frame) (y : list float64) (n : nat).
Variable precomputed : list float64.
Variables (old_coeffs : DataFrame) (old_precomputed : list float64).
Variable path : string.

Local Abbreviation record := (seed_record ext X y n old_coeffs old_precomputed).
Local Abbreviation loop :=
  (bootstrap_loop ext X y n precomputed old_coeffs old_precomputed path).

(** A seed that needs a fit: in neither cache. *)
Local Abbreviation todo :=
  (fun b => negb (seed_in b precomputed)).

Lemma loop_skip (b : nat) (rest : list nat) (coeffs : DataFrame) :
  seed_in b precomputed = true ->
  loop (b :: rest) coeffs = loop rest coeffs.
Proof. intros H. cbn [bootstrap_loop]. now rewrite H. Qed.

Lemma loop_raise (b : nat) (rest : list nat) (coeffs : DataFrame) (e : exn) :
  seed_in b precomputed = false -> snd (record b) = Raise e ->
  loop (b :: rest) coeffs = (at_seed b (fst (record b)), Raise e).
Proof. intros H Hr. cbn [bootstrap_loop]. now rewrite H, Hr. Qed.

Lemma loop_ok (b : nat) (rest : list nat) (coeffs : DataFrame) (r : Series) :
  seed_in b precomputed = false -> snd (record b) = Ok r ->
  loop (b :: rest) coeffs
  = (at_seed b (fst (record b) ++ [ToCsv path (coeffs ++ [r])])
       ++ fst (loop rest (coeffs ++ [r])),
     snd (loop rest (coeffs ++ [r]))).
Proof. intros H Hr. cbn [bootstrap_loop]. now rewrite H, Hr. Qed.

Ltac loop_induction seeds coeffs :=
  let b := fresh "b" in
  let IH := fresh "IH" in
  let Hskip := fresh "Hskip" in
  let Hrec := fresh "Hrec" in
  let r := fresh "r" in
  let e := fresh "e" in
  induction seeds as [|b seeds IH]; intros coeffs;
  [ simpl
  | destruct (seed_in b precomputed) eqn:Hskip;
    [ rewrite (loop_skip b seeds coeffs Hskip)
    | destruct (snd (record b)) as [r|e] eqn:Hrec;
      [ rewrite (loop_ok b seeds coeffs r Hskip Hrec)
      | rewrite (loop_raise b seeds coeffs e Hskip Hrec) ] ] ].

(** Every event of the loop belongs to a seed of the loop that the current
    cache does not hold; it is a call of that seed's computation, or the
    rewriting of the cache file with the table as loaded plus new records,
    each the record of such a seed. *)
Lemma loop_event_inv (seeds : list nat) :
  forall (coeffs : DataFrame) (o : option nat) (c : call),
  In (o, c) (fst (loop seeds coeffs)) ->
  exists b, o = Some b /\ In b seeds /\ seed_in b precomputed = false
    /\ (In c (fst (record b))
        \/ exists new, c = ToCsv path (coeffs ++ new)
             /\ Forall (fun r => exists b', In b' seeds
                          /\ seed_in b' precomputed = false
                          /\ snd (record b') = Ok r) new).
Proof.
  loop_induction seeds coeffs; intros o c Hin.
  - contradiction.
  - destruct (IH coeffs o c Hin) as [b' [Ho [Hb' [Hs Hc]]]].
    exists b'. repeat split; auto; [now right|].
    destruct Hc as [Hc | [new [Hc Hnew]]]; [now left | right].
    exists new. split; [assumption|].
    eapply Forall_impl; [|exact Hnew].
    intros r' [b'' [H1 [H2 H3]]]. exists b''. repeat split; auto. now right.
  - cbn [fst snd] in Hin. apply in_app_or in Hin as [Hin | Hin].
    + apply in_at_seed in Hin as [-> Hc]. exists b.
      repeat split; auto; [now left|].
      apply in_app_or in Hc as [Hc | [<- | []]]; [now left | right].
      exists [r]. split; [reflexivity|]. constructor; [|constructor].
      exists b. repeat split; auto. now left.
    + destruct (IH (coeffs ++ [r]) o c Hin) as [b' [Ho [Hb' [Hs Hc]]]].
      exists b'. repeat split; auto; [now right|].
      destruct Hc as [Hc | [new [Hc Hnew]]]; [now left | right].
      exists (r :: new). rewrite <- app_assoc in Hc. split; [exact Hc|].
      constructor.
      * exists b. repeat split; auto. now left.
      * eapply Forall_impl; [|exact Hnew].
        intros r' [b'' [H1 [H2 H3]]]. exists b''. repeat split; auto. now right.
  - cbn [fst snd] in Hin. apply in_at_seed in Hin as [-> Hc]. exists b.
    repeat split; auto. now left.
Qed.

Lemma loop_all_skipped (seeds : list nat) :
  forall coeffs : DataFrame,
  (forall b, In b seeds -> seed_in b precomputed = true) ->
  loop seeds coeffs = ([], Ok coeffs).
Proof.
  induction seeds as [|b seeds IH]; intros coeffs Hall; [reflexivity|].
  rewrite loop_skip by (apply Hall; now left).
  apply IH. intros b' Hb'. apply Hall. now right.
Qed.

(** The calls of one seed in a run that ends well. *)
Lemma loop_calls_of (seeds : list nat) :
  forall (coeffs coeffs' : DataFrame) (b : nat),
  NoDup seeds ->
  snd (loop seeds coeffs) = Ok coeffs' ->
  In b seeds -> seed_in b precomputed = false ->
  exists r before,
    snd (record b) = Ok r
    /\ calls_of b (fst (loop seeds coeffs))
       = fst (record b) ++ [ToCsv path (coeffs ++ before ++ [r])].
Proof.
  loop_induction seeds coeffs; intros coeffs' b0 Hnd Hok Hb0 Hs0.
  - contradiction.
  - inversion Hnd; subst.
    destruct Hb0 as [-> | Hb0]; [congruence|].
    now apply (IH coeffs coeffs' b0).
  - inversion Hnd as [|? ? Hfresh Hnd']; subst. cbn [fst snd] in Hok |- *.
    rewrite calls_of_app, calls_of_at_seed.
    destruct Hb0 as [-> | Hb0].
    + rewrite Nat.eqb_refl. exists r, []. split; [assumption|].
      rewrite calls_of_none; [now rewrite app_nil_r|].
      intros c Hc. apply loop_event_inv in Hc as [b' [Hb' [Hin _]]].
      inversion Hb'; subst. contradiction.
    + assert (Hne : (b =? b0)%nat = false).
      { apply Nat.eqb_neq. intros ->. contradiction. }
      rewrite Hne. cbn [app].
      destruct (IH (coeffs ++ [r]) coeffs' b0 Hnd' Hok Hb0 Hs0)
        as [r0 [before [Hr0 Hcalls]]].
      exists r0, (r :: before). split; [assumption|].
      rewrite Hcalls. now rewrite <- app_assoc.
  - cbn [fst snd] in Hok. discriminate.
Qed.

Lemma loop_working_ok (seeds : list nat) :
  forall coeffs coeffs' : DataFrame,
  snd (loop seeds coeffs) = Ok coeffs' ->
  working_seeds (fst (loop seeds coeffs)) = filter todo seeds.
Proof.
  loop_induction seeds coeffs; intros coeffs' Hok.
  - reflexivity.
  - cbn [fst snd filter]. rewrite Hskip. cbn [negb]. now apply (IH coeffs coeffs').
  - cbn [fst snd filter] in Hok |- *. rewrite Hskip. cbn [negb].
    rewrite working_seeds_app.
    destruct (record_calls ext X y n old_coeffs old_precomputed b)
      as [rest [Hcalls Hquiet]].
    rewrite Hcalls. rewrite (IH (coeffs ++ [r]) coeffs' Hok).
    change (at_seed b ((Print (WorkingOn b) :: rest) ++ [ToCsv path (coeffs ++ [r])]))
      with ((Some b, Print (WorkingOn b))
            :: at_seed b (rest ++ [ToCsv path (coeffs ++ [r])])).
    change (working_seeds ((Some b, Print (WorkingOn b))
                           :: at_seed b (rest ++ [ToCsv path (coeffs ++ [r])])))
      with (b :: working_seeds (at_seed b (rest ++ [ToCsv path (coeffs ++ [r])]))).
    rewrite working_seeds_quiet.
    + reflexivity.
    + rewrite forallb_app. cbn. rewrite andb_true_r.
      rewrite forallb_forall in Hquiet |- *. intros c Hc.
      specialize (Hquiet c Hc). now apply andb_true_iff in Hquiet as [? _].
  - cbn [fst snd] in Hok. discriminate.
Qed.

Lemma loop_working_prefix (seeds : list nat) :
  forall coeffs : DataFrame,
  exists k, working_seeds (fst (loop seeds coeffs)) = firstn k (filter todo seeds).
Proof.
  assert (Hq : forall rest,
            forallb (fun c => negb (is_print c) && negb (is_to_csv c)) rest = true ->
            forallb (fun c => negb (is_print c)) rest = true).
  { intros rest Hquiet. rewrite forallb_forall in Hquiet |- *. intros c Hc.
    specialize (Hquiet c Hc). now apply andb_true_iff in Hquiet as [? _]. }
  loop_induction seeds coeffs.
  - now exists 0.
  - cbn [fst snd filter]. rewrite Hskip. cbn [negb]. apply IH.
  - cbn [fst snd filter]. rewrite Hskip. cbn [negb].
    destruct (IH (coeffs ++ [r])) as [k Hk]. exists (S k).
    rewrite working_seeds_app, Hk. cbn [firstn].
    destruct (record_calls ext X y n old_coeffs old_precomputed b)
      as [rest [Hcalls Hquiet]].
    rewrite Hcalls.
    change (at_seed b ((Print (WorkingOn b) :: rest) ++ [ToCsv path (coeffs ++ [r])]))
      with ((Some b, Print (WorkingOn b))
            :: at_seed b (rest ++ [ToCsv path (coeffs ++ [r])])).
    change (working_seeds ((Some b, Print (WorkingOn b))
                           :: at_seed b (rest ++ [ToCsv path (coeffs ++ [r])])))
      with (b :: working_seeds (at_seed b (rest ++ [ToCsv path (coeffs ++ [r])]))).
    rewrite working_seeds_quiet; [reflexivity|].
    rewrite forallb_app. cbn. rewrite andb_true_r. eauto.
  - cbn [fst snd filter]. rewrite Hskip. cbn [negb]. exists 1.
    destruct (record_calls ext X y n old_coeffs old_precomputed b)
      as [rest [Hcalls Hquiet]].
    rewrite Hcalls.
    change (working_seeds (at_seed b (Print (WorkingOn b) :: rest)))
      with (b :: working_seeds (at_seed b rest)).
    rewrite working_seeds_quiet by eauto.
    destruct (filter todo seeds); reflexivity.
Qed.

Lemma loop_sorted (seeds : list nat) :
  forall coeffs : DataFrame,
  StronglySorted lt seeds ->
  StronglySorted seed_le (fst (loop seeds coeffs)).
Proof.
  loop_induction seeds coeffs; intros Hsorted.
  - constructor.
  - inversion Hsorted; subst. now apply IH.
  - inversion Hsorted as [|? ? Hs Hlt]; subst. cbn [fst snd].
    apply StronglySorted_app.
    + apply at_seed_sorted.
    + now apply IH.
    + intros [o1 c1] [o2 c2] H1 H2.
      apply in_at_seed in H1 as [-> _].
      apply loop_event_inv in H2 as [b' [-> [Hb' _]]].
      rewrite Forall_forall in Hlt. specialize (Hlt b' Hb').
      unfold seed_le. simpl. lia.
  - cbn [fst snd]. apply at_seed_sorted.
Qed.

Lemma filter_at_seed (p : call -> bool) (b : nat) (cs : list call) :
  filter (fun e => p (snd e)) (at_seed b cs) = at_seed b (filter p cs).
Proof.
  unfold at_seed. induction cs as [|c cs IH]; simpl; [reflexivity|].
  rewrite IH. now destruct (p c).
Qed.

(** In a run that ends well the grid search is called once for each seed
    that is in neither cache, always on the full data. *)
Lemma loop_grid_searches (seeds : list nat) :
  forall coeffs coeffs' : DataFrame,
  snd (loop seeds coeffs) = Ok coeffs' ->
  filter (fun e => is_grid_search (snd e)) (fst (loop seeds coeffs))
  = map (fun b => (Some b, GridSearch X y (Some 5)))
        (filter (fun b => negb (seed_in b precomputed)
                          && negb (seed_in b old_precomputed)) seeds).
Proof.
  loop_induction seeds coeffs; intros coeffs' Hok.
  - reflexivity.
  - cbn [filter]. rewrite Hskip. cbn [negb andb]. now apply (IH coeffs coeffs').
  - cbn [fst snd filter] in Hok |- *. rewrite Hskip. cbn [negb andb].
    rewrite filter_app, filter_at_seed, filter_app.
    rewrite (record_grid_searches ext X y n old_coeffs old_precomputed b r Hrec).
    pose proof (IH (coeffs ++ [r]) coeffs' Hok) as IH'.
    destruct (seed_in b old_precomputed);
      cbn [at_seed map app filter is_grid_search negb];
      [|f_equal]; exact IH'.
  - cbn [fst snd] in Hok. discriminate.
Qed.

(** How a run that ends well leaves the table: the loaded rows, then one
    record for each seed that was not skipped; and the last thing it did, if
    it did anything, was to write that table. *)
Lemma loop_final (seeds : list nat) :
  forall coeffs coeffs' : DataFrame,
  snd (loop seeds coeffs) = Ok coeffs' ->
  exists new,
    coeffs' = coeffs ++ new
    /\ (forall b, In b seeds -> seed_in b precomputed = false ->
          exists r, In r new /\ snd (record b) = Ok r)
    /\ (fst (loop seeds coeffs) = [] /\ new = []
        \/ exists evs b,
             fst (loop seeds coeffs) = evs ++ [(Some b, ToCsv path coeffs')]).
Proof.
  loop_induction seeds coeffs; intros coeffs' Hok.
  - inversion Hok; subst. exists []. rewrite app_nil_r.
    repeat split; [intros b [] | now left].
  - destruct (IH coeffs coeffs' Hok) as [new [Hnew [Hall Hlast]]].
    exists new. repeat split; try assumption.
    intros b' [-> | Hb'] Hs; [congruence | now apply Hall].
  - cbn [fst snd] in Hok |- *.
    destruct (IH (coeffs ++ [r]) coeffs' Hok) as [new [Hnew [Hall Hlast]]].
    exists (r :: new). rewrite <- app_assoc in Hnew.
    split; [exact Hnew|]. split.
    + intros b' [-> | Hb'] Hs.
      * exists r. split; [now left | assumption].
      * destruct (Hall b' Hb' Hs) as [r' [Hr' Hrec']].
        exists r'. split; [now right | assumption].
    + right. destruct Hlast as [[Hnil Hnone] | [evs [b' Hevs]]].
      * rewrite Hnil, app_nil_r. subst new. rewrite app_nil_r in Hnew.
        exists (at_seed b (fst (record b))), b. subst coeffs'.
        unfold at_seed. now rewrite map_app.
      * rewrite Hevs.
        exists (at_seed b (fst (record b) ++ [ToCsv path (coeffs ++ [r])]) ++ evs),
               b'.
        now rewrite app_assoc.
  - cbn [fst snd] in Hok. discriminate.
Qed.

End LoopFacts.

(** ** Sorted lists of seeds *)

Lemma seq_sorted (a N : nat) : StronglySorted lt (seq a N).
Proof.
  revert a. induction N as [|N IH]; intros a; simpl; constructor.
  - apply IH.
  - apply Forall_forall. intros b Hb. apply in_seq in Hb. lia.
Qed.

Lemma filter_sorted {A} (R : A -> A -> Prop) (p : A -> bool) (l : list A) :
  StronglySorted R l -> StronglySorted R (filter p l).
Proof.
  induction 1 as [|a l Hs IH Hall]; simpl; [constructor|].
  destruct (p a); [|assumption]. constructor; [assumption|].
  rewrite Forall_forall in Hall |- *. intros b Hb.
  apply filter_In in Hb as [Hb _]. auto.
Qed.

Lemma firstn_sorted {A} (R : A -> A -> Prop) (k : nat) (l : list A) :
  StronglySorted R l -> StronglySorted R (firstn k l).
Proof.
  intros Hs. revert k. induction Hs as [|a l Hs IH Hall]; intros k.
  - rewrite firstn_nil. constructor.
  - destruct k as [|k]; simpl; constructor; [apply IH|].
    rewrite Forall_forall in Hall |- *. intros b Hb.
    apply Hall. rewrite <- (firstn_skipn k l). apply in_or_app. now left.
Qed.

(** ** The record of a seed *)



Lemma series_index_filter_label (p : string -> bool) (s : Series) :
  series_index (filter (fun e => p (fst e)) s) = filter p (series_index s).
Proof.
  unfold series_index. symmetry. apply filter_map_swap.
Qed.

Lemma NoDup_index_filter (q : string * float64 -> bool) (s : Series) :
  NoDup (series_index s) -> NoDup (series_index (filter q s)).
Proof.
  unfold series_index.
  induction s as [|e s IH]; simpl; intros Hnd; [constructor|].
  inversion Hnd as [|? ? He Hnd']; subst.
  destruct (q e); simpl; [|now apply IH].
  constructor; [|now apply IH].
  intros Hin. apply He. apply in_map_iff in Hin as [e' [Heq Hin]].
  apply filter_In in Hin as [Hin _]. rewrite <- Heq. now apply in_map.
Qed.

Lemma legacy_coefficients_getitem (row : Series) :
  NoDup (series_index row) ->
  series_getitem row
    (filter (fun c => negb (c =? "seed")) (series_index row))
  = legacy_coefficients row.
Proof.
  intros Hnd. unfold legacy_coefficients.
  rewrite <- (series_index_filter_label (fun c => negb (c =? "seed"))).
  now apply series_getitem_filter.
Qed.

Lemma zero_entries_getitem (rp : Series) :
  NoDup (series_index rp) ->
  series_getitem rp (index_where is_zero rp)
  = filter (fun e => is_zero (snd e)) rp.
Proof. intros Hnd. unfold index_where. now apply series_getitem_filter. Qed.

Lemma index_combine (names : list string) (values : list float64) :
  List.length names = List.length values ->
  series_index (combine names values) = names.
Proof.
  unfold series_index. revert values.
  induction names as [|c names IH]; intros [|v values] Hlen;
    simpl in *; try discriminate; [reflexivity|].
  f_equal. apply IH. lia.
Qed.

Lemma wrap_params_ok (names : list string) (values : list float64)
    (sc : Series) :
  wrap_params names values = Ok sc ->
  sc = combine names values /\ series_index sc = names.
Proof.
  unfold wrap_params.
  destruct (List.length names =? List.length values)%nat eqn:Hlen;
    [|discriminate].
  intros H. inversion H; subst. split; [reflexivity|].
  apply Nat.eqb_eq in Hlen. now apply index_combine.
Qed.

Lemma legacy_row_in (old_coeffs : DataFrame) (b : nat) (row : Series) :
  legacy_row old_coeffs b = Ok row -> In row old_coeffs.
Proof.
  unfold legacy_row.
  destruct (find _ old_coeffs) as [r|] eqn:Hfind; [|discriminate].
  intros H. inversion H; subst. now apply find_some in Hfind as [? _].
Qed.




Lemma positions_absent (l : string) (cols : list string) (from : nat) :
  ~ In l cols -> positions l cols from = [].
Proof.
  revert from. induction cols as [|c cols IH]; simpl; intros from Hl;
    [reflexivity|].
  destruct (c =? l) eqn:Hc.
  - apply String.eqb_eq in Hc. exfalso. apply Hl. now left.
  - apply IH. intros H. apply Hl. now right.
Qed.



Lemma bootstrap_resample_columns (ext : External) (X : Frame)
    (y : list float64) (n b : nat) (re_X : Frame) (re_y : list float64) :
  bootstrap_resample ext X y n b = Ok (re_X, re_y) -> columns re_X = columns X.
Proof.
  unfold bootstrap_resample, frame_iloc.
  destruct (np_random_randint ext b 0 n n) as [inds|e]; [|discriminate].
  cbn [rbind].
  destruct (iloc (rows X) inds) as [rs|e]; [|discriminate]. cbn [rbind].
  destruct (iloc y inds) as [ys|e]; [|discriminate]. cbn [rbind].
  intros H. inversion H. reflexivity.
Qed.

(** ** Cache files, written and read back *)

Lemma float_eqb_congr (u v w : float64) :
  float_eqb u v = true -> float_eqb u w = float_eqb v w.
Proof.
  destruct u as [p|], v as [q|], w as [r|]; simpl; try discriminate;
    try reflexivity.
  intros H. apply Qeq_bool_iff in H.
  destruct (Qeq_bool p r) eqn:Hpr, (Qeq_bool q r) eqn:Hqr; try reflexivity.
  - apply Qeq_bool_iff in Hpr.
    assert (Hq : Qeq_bool q r = true)
      by (apply Qeq_bool_iff; now rewrite <- H).
    congruence.
  - apply Qeq_bool_iff in Hqr.
    assert (Hp : Qeq_bool p r = true)
      by (apply Qeq_bool_iff; now rewrite H).
    congruence.
Qed.

Lemma float_eqb_of_int (b : nat) : float_eqb (of_int b) (of_int b) = true.
Proof. unfold float_eqb, of_int. apply Qeq_bool_iff. reflexivity. Qed.

Lemma seed_in_filter (b : nat) (v : float64) (vs : list float64) :
  float_eqb v (of_int b) = false ->
  seed_in b (filter (fun u => negb (float_eqb u v)) vs) = seed_in b vs.
Proof.
  intros Hv. unfold seed_in.
  induction vs as [|u vs IH]; simpl; [reflexivity|].
  destruct (float_eqb u v) eqn:Huv; simpl.
  - rewrite (float_eqb_congr u v (of_int b) Huv), Hv. simpl. exact IH.
  - now rewrite IH.
Qed.

Lemma seed_in_unique (b : nat) (vs : list float64) :
  seed_in b (unique vs) = seed_in b vs.
Proof.
  induction vs as [|v vs IH]; [reflexivity|].
  cbn [unique]. unfold seed_in in *. cbn [existsb].
  destruct (float_eqb v (of_int b)) eqn:Hv; [reflexivity|]. cbn [orb].
  rewrite <- IH. exact (seed_in_filter b v (unique vs) Hv).
Qed.

Lemma seed_in_app (b : nat) (us vs : list float64) :
  seed_in b (us ++ vs) = seed_in b us || seed_in b vs.
Proof. unfold seed_in. apply existsb_app. Qed.

Lemma series_get_filter_label (p : string -> bool) (l : string) (s : Series) :
  p l = true ->
  series_get l (filter (fun e => p (fst e)) s) = series_get l s.
Proof.
  intros Hl. unfold series_get. f_equal.
  induction s as [|e s IH]; simpl; [reflexivity|].
  destruct (fst e =? l) eqn:He.
  - apply String.eqb_eq in He. rewrite He, Hl. simpl.
    rewrite He. now rewrite String.eqb_refl.
  - destruct (p (fst e)); simpl; [now rewrite He | exact IH].
Qed.

Lemma drop_unnamed_csv_of (df : DataFrame) :
  drop_unnamed (csv_of df) = drop_unnamed df.
Proof.
  unfold drop_unnamed, csv_of. rewrite map_map.
  generalize 0 as from.
  induction df as [|row df IH]; intros from; simpl; [reflexivity|].
  f_equal. apply IH.
Qed.

Lemma seed_column_drop_unnamed (df : DataFrame) :
  seed_column (drop_unnamed df) = seed_column df.
Proof.
  unfold seed_column, drop_unnamed. rewrite map_map.
  apply map_ext. intros row.
  now rewrite (series_get_filter_label
                 (fun c => negb (contains "Unnamed" c)) "seed" row).
Qed.

Lemma seed_in_load_cache (b : nat) (d : Disk) (path : string) :
  seed_in b (snd (load_cache d path))
  = seed_in b (seed_column (fst (load_cache d path))).
Proof.
  unfold load_cache. destruct (read_file d path); [|reflexivity].
  cbn [fst snd]. apply seed_in_unique.
Qed.

Lemma read_written_file (path : string) (df : DataFrame) (d : Disk) :
  read_file (write_file path df d) path = Some df.
Proof.
  unfold read_file, write_file. simpl. now rewrite String.eqb_refl.
Qed.

Lemma replay_app (evs evs' : list event) (d : Disk) :
  replay (evs ++ evs') d = replay evs' (replay evs d).
Proof.
  revert d. induction evs as [|[o c] evs IH]; intros d; [reflexivity|].
  destruct c; simpl; apply IH.
Qed.

(** ** Seeds that a run reaches *)

Lemma legacy_row_found (b : nat) (d : Disk) (path : string) :
  seed_in b (snd (load_cache d path)) = true ->
  exists row, legacy_row (fst (load_cache d path)) b = Ok row.
Proof.
  rewrite seed_in_load_cache. unfold seed_in, seed_column, legacy_row.
  intros H. apply existsb_exists in H as [v [Hv Heq]].
  apply in_map_iff in Hv as [row [Hrow Hin]].
  destruct (find _ (fst (load_cache d path))) as [r|] eqn:Hfind; [eauto|].
  exfalso. apply (find_none _ _ Hfind) in Hin.
  destruct (series_get "seed" row) as [u|]; subst v;
    [congruence | discriminate].
Qed.

Section Reached.

Variable ext : External.
Variables (X : Frame) (y : list float64) (n : nat).
Variable precomputed : list float64.
Variables (old_coeffs : DataFrame) (old_precomputed : list float64).
Variable path : string.

Local Abbreviation record := (seed_record ext X y n old_coeffs old_precomputed).
Local Abbreviation loop :=
  (bootstrap_loop ext X y n precomputed old_coeffs old_precomputed path).

Lemma working_seeds_step (b : nat) (extra : list call) :
  forallb (fun c => negb (is_print c)) extra = true ->
  working_seeds (at_seed b (fst (record b) ++ extra)) = [b].
Proof.
  intros Hextra.
  destruct (record_calls ext X y n old_coeffs old_precomputed b)
    as [rest [-> Hquiet]].
  change (at_seed b ((Print (WorkingOn b) :: rest) ++ extra))
    with ((Some b, Print (WorkingOn b)) :: at_seed b (rest ++ extra)).
  change (working_seeds ((Some b, Print (WorkingOn b))
                         :: at_seed b (rest ++ extra)))
    with (b :: working_seeds (at_seed b (rest ++ extra))).
  rewrite working_seeds_quiet; [reflexivity|].
  rewrite forallb_app, Hextra, andb_true_r.
  rewrite forallb_forall in Hquiet |- *. intros c Hc.
  specialize (Hquiet c Hc). now apply andb_true_iff in Hquiet as [? _].
Qed.

(** A seed that is not announced makes no call. *)
Lemma loop_unreached (seeds : list nat) :
  forall (coeffs : DataFrame) (b : nat),
  ~ In b (working_seeds (fst (loop seeds coeffs))) ->
  calls_of b (fst (loop seeds coeffs)) = [].
Proof.
  induction seeds as [|a seeds IH]; intros coeffs b; [reflexivity|].
  destruct (seed_in a precomputed) eqn:Hskip.
  - rewrite (loop_skip ext X y n precomputed old_coeffs old_precomputed path
               a seeds coeffs Hskip). apply IH.
  - destruct (snd (record a)) as [r|e] eqn:Hrec.
    + rewrite (loop_ok ext X y n precomputed old_coeffs old_precomputed path
                 a seeds coeffs r Hskip Hrec). cbn [fst].
      rewrite working_seeds_app, (working_seeds_step a) by reflexivity.
      intros Hno. rewrite calls_of_app, calls_of_at_seed.
      destruct (a =? b)%nat eqn:Hab.
      * apply Nat.eqb_eq in Hab. subst a. exfalso. apply Hno. now left.
      * cbn [app]. apply IH. intros Hin. apply Hno. now right.
    + rewrite (loop_raise ext X y n precomputed old_coeffs old_precomputed path
                 a seeds coeffs e Hskip Hrec). cbn [fst].
      pose proof (working_seeds_step a [] eq_refl) as Hw.
      rewrite app_nil_r in Hw. rewrite Hw.
      intros Hno. rewrite calls_of_at_seed.
      destruct (a =? b)%nat eqn:Hab; [|reflexivity].
      apply Nat.eqb_eq in Hab. subst a. exfalso. apply Hno. now left.
Qed.

(** A seed that is announced makes the calls of its computation and, if
    that ends well, rewrites the cache file with its record last. *)
Lemma loop_reached (seeds : list nat) :
  forall (coeffs : DataFrame) (b : nat),
  NoDup seeds ->
  In b (working_seeds (fst (loop seeds coeffs))) ->
  In b seeds /\ seed_in b precomputed = false
  /\ exists tail,
       calls_of b (fst (loop seeds coeffs)) = fst (record b) ++ tail
       /\ match snd (record b) with
          | Ok r => exists before, tail = [ToCsv path (coeffs ++ before ++ [r])]
          | Raise _ => tail = []
          end.
Proof.
  induction seeds as [|a seeds IH]; intros coeffs b Hnd; [intros []|].
  inversion Hnd as [|? ? Hfresh Hnd']; subst.
  destruct (seed_in a precomputed) eqn:Hskip.
  - rewrite (loop_skip ext X y n precomputed old_coeffs old_precomputed path
               a seeds coeffs Hskip).
    intros Hin. destruct (IH coeffs b Hnd' Hin) as [Hb [Ht Hcalls]].
    split; [now right|]. split; assumption.
  - destruct (snd (record a)) as [r|e] eqn:Hrec.
    + rewrite (loop_ok ext X y n precomputed old_coeffs old_precomputed path
                 a seeds coeffs r Hskip Hrec). cbn [fst].
      rewrite working_seeds_app, (working_seeds_step a) by reflexivity.
      rewrite calls_of_app, calls_of_at_seed.
      intros [<- | Hin].
      * split; [now left|]. split; [assumption|].
        rewrite Nat.eqb_refl, Hrec.
        rewrite calls_of_none.
        -- rewrite app_nil_r. exists [ToCsv path (coeffs ++ [r])].
           split; [reflexivity|]. now exists [].
        -- intros c Hc. apply loop_event_inv in Hc as [b' [Hb' [Hin' _]]].
           inversion Hb'; subst. contradiction.
      * destruct (IH (coeffs ++ [r]) b Hnd' Hin) as [Hb [Ht [tail [Hcalls Htail]]]].
        split; [now right|]. split; [assumption|].
        assert (Hne : (a =? b)%nat = false)
          by (apply Nat.eqb_neq; intros ->; contradiction).
        rewrite Hne. cbn [app]. exists tail. split; [exact Hcalls|].
        destruct (snd (record b)) as [r'|e']; [|exact Htail].
        destruct Htail as [before ->]. exists (r :: before).
        now rewrite <- app_assoc.
    + rewrite (loop_raise ext X y n precomputed old_coeffs old_precomputed path
                 a seeds coeffs e Hskip Hrec). cbn [fst].
      pose proof (working_seeds_step a [] eq_refl) as Hw.
      rewrite app_nil_r in Hw. rewrite Hw.
      intros [<- | []]. split; [now left|]. split; [assumption|].
      rewrite calls_of_at_seed, Nat.eqb_refl, Hrec.
      exists []. now rewrite app_nil_r.
Qed.

(** The grid search within one seed, however the seed ends. *)
Lemma record_grid_searches_any (b : nat) :
  filter is_grid_search (fst (record b))
  = if seed_in b old_precomputed then []
    else match bootstrap_resample ext X y n b with
         | Ok _ => [GridSearch X y (Some 5)]
         | Raise _ => []
         end.
Proof.
  unfold seed_record, regularized_params, refit_selected,
    ebind, lift, invoke, eret.
  cbn [fst snd app].
  destruct (bootstrap_resample ext X y n b) as [[re_X re_y]|e];
    cbn [fst snd app]; [|now destruct (seed_in b old_precomputed)].
  destruct (seed_in b old_precomputed); cbn [fst snd app].
  - destruct (legacy_row old_coeffs b) as [row|e]; cbn [fst snd app];
      [|reflexivity].
    destruct (frame_getitem re_X _) as [ex|e]; cbn [fst snd app];
      [|reflexivity].
    destruct (ols_fit ext re_y ex) as [vals|e]; cbn [fst snd app];
      [|reflexivity].
    destruct (wrap_params (columns ex) vals); reflexivity.
  - destruct (full_grid_search ext X y (Some 5)) as [l12|e];
      cbn [fst snd app]; [|reflexivity].
    destruct (fit_regularized ext re_y re_X _) as [values|e];
      cbn [fst snd app]; [|reflexivity].
    destruct (wrap_params (columns re_X) values) as [rp|e];
      cbn [fst snd app]; [|reflexivity].
    destruct (frame_getitem re_X _) as [ex|e]; cbn [fst snd app];
      [|reflexivity].
    destruct (ols_fit ext re_y ex) as [vals|e]; cbn [fst snd app];
      [|reflexivity].
    destruct (wrap_params (columns ex) vals); reflexivity.
Qed.

(** A seed that the legacy cache holds calls neither the grid search nor
    the regularized fit. *)
Lemma legacy_seed_calls (b : nat) (c : call) :
  seed_in b old_precomputed = true -> In c (fst (record b)) ->
  is_grid_search c = false /\ is_fit_regularized c = false.
Proof.
  intros Hleg Hin. apply record_call_inv in Hin
    as [-> | [re_X [re_y [_ [Hin | [rp [ex [_ [_ ->]]]]]]]]].
  - split; reflexivity.
  - apply regularized_call_inv in Hin as [Hfalse _]. congruence.
  - split; reflexivity.
Qed.

(** What such a seed does once its resample is built and the columns with
    a nonzero legacy coefficient are selected. *)
Lemma legacy_seed_record (b : nat) (row : Series) (re_X : Frame)
    (re_y : list float64) (exog : Frame) :
  seed_in b old_precomputed = true ->
  legacy_row old_coeffs b = Ok row ->
  NoDup (series_index row) ->
  bootstrap_resample ext X y n b = Ok (re_X, re_y) ->
  frame_getitem re_X (index_where nonzero (legacy_coefficients row)) = Ok exog ->
  fst (record b) = [Print (WorkingOn b); OLSFit re_y exog]
  /\ snd (record b)
     = (vals <- ols_fit ext re_y exog ;;
        refitted <- wrap_params (columns exog) vals ;;
        Ok (post_selection_record (legacy_coefficients row) refitted b)).
Proof.
  intros Hleg Hrow Hnd Hre Hexog.
  unfold seed_record, regularized_params, refit_selected,
    ebind, lift, invoke, eret.
  cbn [fst snd app]. rewrite Hre. cbn [fst snd app].
  rewrite Hleg. cbn [fst snd app]. rewrite Hrow. cbn [fst snd app].
  rewrite (legacy_coefficients_getitem row Hnd).
  rewrite Hexog. cbn [fst snd app].
  rewrite zero_entries_getitem
    by (unfold legacy_coefficients; now apply NoDup_index_filter).
  unfold post_selection_record.
  destruct (ols_fit ext re_y exog) as [vals|e]; cbn [fst snd app rbind];
    [|split; reflexivity].
  destruct (wrap_params (columns exog) vals) as [sc|e];
    cbn [fst snd app rbind]; split; reflexivity.
Qed.

End Reached.

(** ** A bootstrap run *)

Lemma complete_cache_idle (ext : External) (g : Globals) (response : string)
    (d : Disk) (X : Frame) (y : list float64) (N : nat) :
  pull_classroom_data ext response = Ok (X, y) ->
  lookup_global g "num_bootstrap_samples" = Ok (PyInt N) ->
  (forall b, b < N -> seed_in b (snd (current_cache d response)) = true) ->
  cte_boostrap ext g response d = ([], Ok tt).
Proof.
  intros Hpull Hcount Hall.
  unfold cte_boostrap. rewrite Hpull.
  unfold global_range. rewrite Hcount. cbn [rbind].
  rewrite loop_all_skipped; [reflexivity|].
  intros b Hb. apply Hall. apply in_seq in Hb. lia.
Qed.

Section RunFacts.

Variable ext : External.
Variables (g : Globals) (response : string) (d : Disk).
Variables (X : Frame) (y : list float64) (N : nat).

Hypothesis data_pulled : pull_classroom_data ext response = Ok (X, y).
Hypothesis count_bound : lookup_global g "num_bootstrap_samples" = Ok (PyInt N).

Local Abbreviation n := (List.length (rows X)).
Local Abbreviation coeffs0 := (fst (current_cache d response)).
Local Abbreviation precomputed := (snd (current_cache d response)).
Local Abbreviation old_coeffs := (fst (legacy_cache d response)).
Local Abbreviation old_precomputed := (snd (legacy_cache d response)).
Local Abbreviation record := (seed_record ext X y n old_coeffs old_precomputed).
Local Abbreviation loop :=
  (bootstrap_loop ext X y n precomputed old_coeffs old_precomputed
                  (bootstrapped_data_path response)).
Local Abbreviation run := (cte_boostrap ext g response d).

Lemma cte_boostrap_unfold :
  run = (fst (loop (seq 0 N) coeffs0),
         _ <- snd (loop (seq 0 N) coeffs0) ;; Ok tt).
Proof.
  unfold cte_boostrap. rewrite data_pulled.
  unfold global_range. rewrite count_bound. reflexivity.
Qed.

Lemma run_ok_loop_ok :
  snd run = Ok tt -> exists coeffs', snd (loop (seq 0 N) coeffs0) = Ok coeffs'.
Proof.
  rewrite cte_boostrap_unfold. cbn [snd].
  destruct (snd (loop (seq 0 N) coeffs0)) as [c|e]; [eauto | discriminate].
Qed.

Lemma record_seed_field (b : nat) (r : Series) :
  snd (record b) = Ok r -> series_get "seed" r = Some (of_int b).
Proof.
  intros H. apply record_ok_inv in H
    as [re_X [re_y [rp [exog [vals [sc [_ [_ [_ [_ [_ [-> _]]]]]]]]]]]].
  apply series_get_setitem.
Qed.

Lemma record_no_to_csv (b : nat) (p : string) (df : DataFrame) :
  ~ In (ToCsv p df) (fst (record b)).
Proof.
  destruct (record_calls ext X y n old_coeffs old_precomputed b)
    as [rest [-> Hquiet]].
  intros [Hc | Hc]; [discriminate|].
  rewrite forallb_forall in Hquiet. specialize (Hquiet _ Hc).
  simpl in Hquiet. discriminate.
Qed.

(** After a run that ended well, the cache on disk holds every seed. *)
Lemma cache_complete_after_run (b : nat) :
  snd run = Ok tt -> b < N ->
  seed_in b (snd (current_cache (replay (fst run) d) response)) = true.
Proof.
  intros Hok Hb. destruct (run_ok_loop_ok Hok) as [coeffs' Hloop].
  rewrite cte_boostrap_unfold. cbn [fst snd].
  destruct (loop_final ext X y n precomputed old_coeffs old_precomputed
              (bootstrapped_data_path response) (seq 0 N) coeffs0 coeffs' Hloop)
    as [new [Hnew [Hall Hlast]]].
  assert (Hseq : In b (seq 0 N)) by (apply in_seq; lia).
  destruct Hlast as [[-> ->] | [evs [b' ->]]].
  - cbn [replay].
    destruct (seed_in b precomputed) eqn:Hs; [reflexivity|].
    destruct (Hall b Hseq Hs) as [r [[] _]].
  - rewrite replay_app. cbn [replay].
    unfold current_cache, load_cache.
    change ("results/bootstrap/" ++ response ++ "_bootstrap_coeffs.csv")%string
      with (bootstrapped_data_path response).
    rewrite read_written_file. cbn [fst snd].
    rewrite seed_in_unique, drop_unnamed_csv_of, seed_column_drop_unnamed.
    subst coeffs'. unfold seed_column. rewrite map_app.
    fold (seed_column coeffs0). fold (seed_column new). rewrite seed_in_app.
    destruct (seed_in b precomputed) eqn:Hs.
    + unfold current_cache in Hs. rewrite seed_in_load_cache in Hs.
      unfold current_cache. now rewrite Hs.
    + destruct (Hall b Hseq Hs) as [r [Hr Hrec]].
      apply record_seed_field in Hrec.
      apply orb_true_iff. right.
      unfold seed_in. apply existsb_exists. exists (of_int b).
      split; [|apply float_eqb_of_int].
      unfold seed_column. apply in_map_iff. exists r. now rewrite Hrec.
Qed.

(** C5. The seeds are worked on in strictly increasing order within
    [0, N): the events of the run never go back to a lower seed, and each
    seed is announced once, all of them when the run ends well.  A seed that
    the loaded cache holds makes no call at all: no fit and no write.  Every
    table written is the loaded table, unchanged, followed by records of
    seeds that the cache did not hold.  With a complete cache the run makes
    no call and raises nothing; and a run that ended well leaves such a
    cache: run again over the files it left, it makes no call. *)
Theorem resume_skips_cached_seeds :
  StronglySorted seed_le (fst run)
  /\ StronglySorted lt (working_seeds (fst run))
  /\ (forall o c, In (o, c) (fst run) ->
        exists b, o = Some b /\ b < N /\ seed_in b precomputed = false)
  /\ (snd run = Ok tt ->
        working_seeds (fst run)
        = filter (fun b => negb (seed_in b precomputed)) (seq 0 N))
  /\ (forall b c, seed_in b precomputed = true -> ~ In (Some b, c) (fst run))
  /\ (forall o p df, In (o, ToCsv p df) (fst run) ->
        p = bootstrapped_data_path response
        /\ exists new, df = coeffs0 ++ new
             /\ Forall (fun r => exists b, b < N
                          /\ seed_in b precomputed = false
                          /\ series_get "seed" r = Some (of_int b)) new)
  /\ ((forall b, b < N -> seed_in b precomputed = true) ->
        run = ([], Ok tt))
  /\ (snd run = Ok tt ->
        cte_boostrap ext g response (replay (fst run) d) = ([], Ok tt)).
Proof.
  assert (Hagain : snd run = Ok tt ->
            cte_boostrap ext g response (replay (fst run) d) = ([], Ok tt)).
  { intros Hok.
    apply (complete_cache_idle ext g response _ X y N data_pulled count_bound).
    intros b Hb. now apply cache_complete_after_run. }
  revert Hagain.
  rewrite cte_boostrap_unfold. cbn [fst snd]. intros Hagain.
  repeat split; [| | | | | | | | exact Hagain].
  - apply loop_sorted, seq_sorted.
  - destruct (loop_working_prefix ext X y n precomputed old_coeffs
                old_precomputed (bootstrapped_data_path response)
                (seq 0 N) coeffs0) as [k ->].
    apply firstn_sorted, filter_sorted, seq_sorted.
  - intros o c Hin.
    apply loop_event_inv in Hin as [b [-> [Hb [Hs _]]]].
    exists b. apply in_seq in Hb. repeat split; auto; lia.
  - intros Hok.
    destruct (snd (loop (seq 0 N) coeffs0)) as [coeffs'|e] eqn:Hloop;
      [|discriminate].
    now apply (loop_working_ok _ _ _ _ _ _ _ _ _ _ coeffs').
  - intros b c Hs Hin.
    apply loop_event_inv in Hin as [b' [Hb' [_ [Hs' _]]]].
    inversion Hb'; subst. congruence.
  - apply loop_event_inv in H as [b [_ [_ [_ [Hc | [new [Hc _]]]]]]].
    + now apply record_no_to_csv in Hc.
    + now inversion Hc.
  - apply loop_event_inv in H as [b [_ [_ [_ [Hc | [new [Hc Hnew]]]]]]].
    + now apply record_no_to_csv in Hc.
    + inversion Hc; subst. exists new. split; [reflexivity|].
      eapply Forall_impl; [|exact Hnew].
      intros r [b' [Hb' [Hs Hr]]]. exists b'. apply in_seq in Hb'.
      repeat split; auto; [lia | now apply record_seed_field].
  - intros Hall. rewrite loop_all_skipped; [reflexivity|].
    intros b Hb. apply Hall. apply in_seq in Hb. lia.
Qed.

(** C1, as the code has it.  The grid search is not memoized across seeds:
    it is called during a seed, always on the full, unresampled data with
    grid size 5, and only during a seed below the count that neither cache
    holds.  A seed that the run works on calls it once when the legacy cache
    does not hold the seed and the resample of the seed was built, and not
    at all otherwise; a seed that the run does not work on (it is in the
    current cache, or the run halted at an earlier seed) makes no call.  So
    in a run that ends well the grid search is called exactly once for every
    seed below the count that neither cache holds.  The regularized fit of a
    seed uses the penalties made from the pair that the grid search returns
    on those arguments. *)
Theorem grid_search_once_per_fitted_seed :
  (forall o c, In (o, c) (fst run) -> is_grid_search c = true ->
     c = GridSearch X y (Some 5)
     /\ exists b, o = Some b /\ b < N /\ seed_in b precomputed = false
                  /\ seed_in b old_precomputed = false)
  /\ (forall b, In b (working_seeds (fst run)) ->
        filter is_grid_search (calls_of b (fst run))
        = if seed_in b old_precomputed then []
          else match bootstrap_resample ext X y n b with
               | Ok _ => [GridSearch X y (Some 5)]
               | Raise _ => []
               end)
  /\ (forall b, ~ In b (working_seeds (fst run)) -> calls_of b (fst run) = [])
  /\ (snd run = Ok tt ->
        filter (fun e => is_grid_search (snd e)) (fst run)
        = map (fun b => (Some b, GridSearch X y (Some 5)))
              (filter (fun b => negb (seed_in b precomputed)
                                && negb (seed_in b old_precomputed)) (seq 0 N)))
  /\ (forall b endog exog alpha,
        In (Some b, FitRegularized endog exog alpha) (fst run) ->
        seed_in b old_precomputed = false
        /\ exists l12, full_grid_search ext X y (Some 5) = Ok l12
                       /\ alpha = penalties l12 n exog).
Proof.
  rewrite cte_boostrap_unfold. cbn [fst snd].
  split; [|split; [|split; [|split]]].
  - intros o c Hin Hgrid.
    apply loop_event_inv in Hin as [b [-> [Hb [Hs [Hc | [new [-> _]]]]]]];
      [|discriminate].
    apply in_seq in Hb.
    apply record_call_inv in Hc
      as [-> | [re_X [re_y [_ [Hc | [rp [ex [_ [_ ->]]]]]]]]];
      try discriminate.
    apply regularized_call_inv in Hc as [Hleg [-> | [l12 [_ ->]]]];
      [|discriminate].
    split; [reflexivity|]. exists b. repeat split; auto; lia.
  - intros b Hin.
    destruct (loop_reached ext X y n precomputed old_coeffs old_precomputed
                (bootstrapped_data_path response) (seq 0 N) coeffs0 b
                (seq_NoDup N 0) Hin) as [_ [_ [tail [-> Htail]]]].
    rewrite filter_app, record_grid_searches_any.
    assert (Hquiet : filter is_grid_search tail = []).
    { destruct (snd (record b)); [destruct Htail as [before ->] | subst tail];
        reflexivity. }
    rewrite Hquiet. apply app_nil_r.
  - intros b. apply loop_unreached.
  - intros Hok.
    destruct (snd (loop (seq 0 N) coeffs0)) as [coeffs'|e] eqn:Hloop;
      [|discriminate].
    now apply (loop_grid_searches _ _ _ _ _ _ _ _ _ _ coeffs').
  - intros b endog exog alpha Hin.
    apply loop_event_inv in Hin as [b' [Hb' [_ [_ [Hc | [new [Hc _]]]]]]];
      [|discriminate].
    inversion Hb'; subst b'.
    apply record_fit_regularized in Hc as [Hleg [_ Hgrid]]. auto.
Qed.





(** C2, as the code has it.  Let the legacy cache hold seed [b], its rows
    carrying each label once.  Neither the grid search nor the regularized
    fit is ever called for [b].  The run works on [b] only if [b] is below
    the count and the current cache lacks it, and in a run that ends well it
    works on every such seed; a seed that the run does not work on makes no
    call.  When the run works on [b], the legacy record only decides the
    selection: once the resample is built and the columns whose legacy
    coefficient is not zero are taken from it, the calls of the seed are its
    announcement, one unregularized refit on those columns and, if the refit
    returns one coefficient per column, the rewriting of the cache file,
    whose last record keeps the legacy zeros and takes the refitted
    coefficients for the other columns; if the refit raises, the seed ends
    after it and nothing is written.  In a run that ends well all of this
    did happen for every legacy seed below the count that the current cache
    lacks. *)
Theorem legacy_seed_selects_then_refits (b : nat) :
  seed_in b old_precomputed = true ->
  Forall (fun row => NoDup (series_index row)) old_coeffs ->
  (forall c, In (Some b, c) (fst run) ->
     is_grid_search c = false /\ is_fit_regularized c = false)
  /\ (~ In b (working_seeds (fst run)) -> calls_of b (fst run) = [])
  /\ (In b (working_seeds (fst run)) ->
      b < N /\ seed_in b precomputed = false
      /\ exists row,
           legacy_row old_coeffs b = Ok row
           /\ forall re_X re_y exog,
                bootstrap_resample ext X y n b = Ok (re_X, re_y) ->
                frame_getitem re_X
                  (index_where nonzero (legacy_coefficients row)) = Ok exog ->
                exists tail,
                  calls_of b (fst run)
                  = Print (WorkingOn b) :: OLSFit re_y exog :: tail
                  /\ match (vals <- ols_fit ext re_y exog ;;
                            wrap_params (columns exog) vals) with
                     | Ok refitted =>
                         exists before,
                           tail
                           = [ToCsv (bootstrapped_data_path response)
                                (coeffs0 ++ before
                                   ++ [post_selection_record
                                         (legacy_coefficients row) refitted b])]
                     | Raise _ => tail = []
                     end)
  /\ (snd run = Ok tt -> b < N -> seed_in b precomputed = false ->
      In b (working_seeds (fst run))
      /\ exists row re_X re_y exog vals before,
           legacy_row old_coeffs b = Ok row
           /\ bootstrap_resample ext X y n b = Ok (re_X, re_y)
           /\ frame_getitem re_X
                (index_where nonzero (legacy_coefficients row)) = Ok exog
           /\ ols_fit ext re_y exog = Ok vals
           /\ calls_of b (fst run)
              = [ Print (WorkingOn b);
                  OLSFit re_y exog;
                  ToCsv (bootstrapped_data_path response)
                        (coeffs0 ++ before
                           ++ [post_selection_record (legacy_coefficients row)
                                 (combine (columns exog) vals) b]) ]).
Proof.
  intros Hleg Hnd.
  rewrite cte_boostrap_unfold. cbn [fst snd].
  split; [|split; [|split]].
  - intros c Hin.
    apply loop_event_inv in Hin as [b' [Hb' [_ [_ [Hc | [new [-> _]]]]]]];
      [|split; reflexivity].
    inversion Hb'; subst b'.
    exact (legacy_seed_calls ext X y n old_coeffs old_precomputed b c Hleg Hc).
  - apply loop_unreached.
  - intros Hin.
    destruct (loop_reached ext X y n precomputed old_coeffs old_precomputed
                (bootstrapped_data_path response) (seq 0 N) coeffs0 b
                (seq_NoDup N 0) Hin) as [Hb [Hnew [tail [Hcalls Htail]]]].
    apply in_seq in Hb. split; [lia|]. split; [assumption|].
    destruct (legacy_row_found b d (old_data_path response) Hleg)
      as [row Hrow].
    exists row. split; [exact Hrow|].
    intros re_X re_y exog Hre Hexog.
    assert (Hrownd : NoDup (series_index row)).
    { rewrite Forall_forall in Hnd. apply Hnd.
      now apply legacy_row_in in Hrow. }
    destruct (legacy_seed_record ext X y n old_coeffs old_precomputed
                b row re_X re_y exog Hleg Hrow Hrownd Hre Hexog)
      as [Hfst Hsnd].
    exists tail. rewrite Hcalls, Hfst. split; [reflexivity|].
    rewrite Hsnd in Htail.
    destruct (ols_fit ext re_y exog) as [vals|e]; cbn [rbind] in Htail |- *;
      [|exact Htail].
    destruct (wrap_params (columns exog) vals) as [refitted|e];
      cbn [rbind] in Htail |- *; exact Htail.
  - intros Hok Hb Hnew.
    destruct (snd (loop (seq 0 N) coeffs0)) as [coeffs'|e] eqn:Hloop;
      [|discriminate].
    split.
    { rewrite (loop_working_ok ext X y n precomputed old_coeffs old_precomputed
                 (bootstrapped_data_path response) (seq 0 N) coeffs0 coeffs'
                 Hloop).
      apply filter_In. split; [apply in_seq; lia | now rewrite Hnew]. }
    destruct (loop_calls_of ext X y n precomputed old_coeffs old_precomputed
                (bootstrapped_data_path response) (seq 0 N) coeffs0 coeffs' b
                (seq_NoDup N 0) Hloop) as [r [before [Hr Hcalls]]];
      [apply in_seq; lia | assumption |].
    apply record_ok_inv in Hr
      as [re_X [re_y [rp [exog [vals [sc [Hre [Hrp [Hexog [Hvals [Hsc [-> Hfst]]]]]]]]]]]].
    apply regularized_ok_inv in Hrp
      as [[_ [Hnone [row [Hrow ->]]]] | [Hfalse _]]; [|congruence].
    assert (Hrownd : NoDup (series_index row)).
    { rewrite Forall_forall in Hnd. apply Hnd. now apply legacy_row_in in Hrow. }
    rewrite legacy_coefficients_getitem in * by assumption.
    rewrite zero_entries_getitem in Hcalls
      by (unfold legacy_coefficients; now apply NoDup_index_filter).
    apply wrap_params_ok in Hsc as [-> _].
    exists row, re_X, re_y, exog, vals, before.
    repeat split; try assumption.
    rewrite Hcalls, Hfst, Hnone. reflexivity.
Qed.

End RunFacts.

(** C1, as the specification has it, fails: with two seeds to fit and empty
    caches the grid search is called twice, once during each seed. *)
Lemma grid_search_repeated_per_seed :
  filter (fun e => is_grid_search (snd e))
         (fst (cte_boostrap toy (globals_with_count 2) "Yr04_oral_language" []))
  = [ (Some 0, GridSearch toy_X toy_y (Some 5));
      (Some 1, GridSearch toy_X toy_y (Some 5)) ].
Proof. reflexivity. Qed.

Lemma grid_search_once_per_fitted_seed_witness :
  filter (fun e => is_grid_search (snd e))
         (fst (cte_boostrap toy (globals_with_count 2) "Yr04_oral_language" []))
  = map (fun b => (Some b, GridSearch toy_X toy_y (Some 5))) (seq 0 2).
Proof.
  destruct (grid_search_once_per_fitted_seed
              toy (globals_with_count 2) "Yr04_oral_language" []
              toy_X toy_y 2 eq_refl eq_refl)
    as [_ [_ [_ [Hok _]]]].
  exact (Hok eq_refl).
Defined.

(** A second run over the files that a first run left finds every seed in
    the cache and does nothing. *)
Lemma resume_skips_cached_seeds_witness :
  cte_boostrap toy (globals_with_count 2) "Yr04_oral_language"
    (replay (fst (cte_boostrap toy (globals_with_count 2)
                               "Yr04_oral_language" [])) [])
  = ([], Ok tt).
Proof.
  destruct (resume_skips_cached_seeds
              toy (globals_with_count 2) "Yr04_oral_language" []
              toy_X toy_y 2 eq_refl eq_refl)
    as [_ [_ [_ [_ [_ [_ [_ Hagain]]]]]]].
  exact (Hagain eq_refl).
Defined.


(** ** The resample of a seed *)

Lemma iloc_rows_at {A} (dflt : A) (xs : list A) (inds : list nat) :
  Forall (fun i => i < List.length xs) inds ->
  iloc xs inds = Ok (rows_at dflt xs inds).
Proof.
  unfold iloc, rows_at.
  induction 1 as [|i inds Hi _ IH]; simpl; [reflexivity|].
  rewrite IH. destruct (nth_error xs i) as [x|] eqn:Hx.
  - simpl. now rewrite (nth_error_nth xs i dflt Hx).
  - apply nth_error_None in Hx. lia.
Qed.

Section ResampleFacts.

Variable ext : External.
Variables (X : Frame) (y : list float64) (b : nat).

Local Abbreviation n := (List.length (rows X)).
Local Abbreviation sample_inds := (randint ext b 0 n n).
Local Abbreviation re_X :=
  {| columns := columns X; rows := rows_at [] (rows X) sample_inds |}.
Local Abbreviation re_y := (rows_at NaN y sample_inds).

(** C6. For seed [b] the generator is reseeded with [b] and asked for [n]
    indices in [0, n), [n] being the number of rows of the Design Matrix;
    the resampled Design Matrix and Response Vector are the rows at those
    indices, repeats included, in the order drawn, and these are the data
    that the fits of the seed receive.  (That the draws are uniform and
    independent is numpy's contract for [randint]; what is used of it here
    is that it returns [n] indices below [n].) *)
Theorem resample_rows_as_drawn :
  0 < n -> List.length y = n ->
  List.length sample_inds = n -> Forall (fun i => i < n) sample_inds ->
  bootstrap_resample ext X y n b = Ok (re_X, re_y)
  /\ List.length (rows re_X) = n
  /\ List.length re_y = n
  /\ (forall old_coeffs old_precomputed endog exog alpha,
        In (FitRegularized endog exog alpha)
           (fst (seed_record ext X y n old_coeffs old_precomputed b)) ->
        exog = re_X /\ endog = re_y)
  /\ (forall old_coeffs old_precomputed endog exog,
        In (OLSFit endog exog)
           (fst (seed_record ext X y n old_coeffs old_precomputed b)) ->
        endog = re_y
        /\ exists selected, frame_getitem re_X selected = Ok exog).
Proof.
  intros Hn Hy Hlen Hrange.
  assert (Hre : bootstrap_resample ext X y n b = Ok (re_X, re_y)).
  { unfold bootstrap_resample, np_random_randint.
    destruct (n =? 0)%nat eqn:Hz0; [apply Nat.eqb_eq in Hz0; lia|].
    destruct (n <=? 0)%nat eqn:Hz; [apply Nat.leb_le in Hz; lia|].
    cbn [rbind]. unfold frame_iloc.
    rewrite (iloc_rows_at [] (rows X) sample_inds Hrange). cbn [rbind].
    rewrite (iloc_rows_at NaN y sample_inds) by now rewrite Hy.
    reflexivity. }
  split; [exact Hre|].
  split; [cbn [rows]; unfold rows_at; now rewrite length_map|].
  split; [unfold rows_at; now rewrite length_map|].
  split.
  - intros old_coeffs old_precomputed endog exog alpha Hin.
    apply record_fit_regularized in Hin as [_ [Hre' _]].
    rewrite Hre in Hre'. inversion Hre'. auto.
  - intros old_coeffs old_precomputed endog exog Hin.
    apply record_ols_fit in Hin as [re_X' [rp [Hre' [_ Hex]]]].
    rewrite Hre in Hre'. inversion Hre'; subst. eauto.
Qed.

End ResampleFacts.

Lemma resample_rows_as_drawn_witness :
  bootstrap_resample toy toy_X toy_y 2 1
  = Ok ({| columns := columns toy_X;
           rows := rows_at [] (rows toy_X) [1; 0] |},
        rows_at NaN toy_y [1; 0]).
Proof.
  apply (resample_rows_as_drawn toy toy_X toy_y 1).
  - simpl. lia.
  - reflexivity.
  - reflexivity.
  - repeat constructor.
Defined.

(** ** A seed whose deciding coefficients are all zero *)

Lemma in_series_getitem (s : Series) (labels : list string)
    (e : string * float64) :
  In e (series_getitem s labels) -> In e s.
Proof.
  unfold series_getitem. rewrite in_flat_map.
  intros [l [_ H]]. now apply filter_In in H as [H _].
Qed.

Lemma in_series_setitem (s : Series) (l : string) (v0 : float64)
    (e : string * float64) :
  In e (series_setitem s l v0) -> e = (l, v0) \/ In e s.
Proof.
  unfold series_setitem.
  destruct (existsb (fun e' => fst e' =? l) s).
  - rewrite in_map_iff. intros [e' [He' Hin]].
    destruct (fst e' =? l); [now left | right; now subst].
  - intros H. apply in_app_or in H as [H | [H | []]]; auto.
Qed.

Lemma index_where_none (p : float64 -> bool) (s : Series) :
  forallb (fun e => negb (p (snd e))) s = true -> index_where p s = [].
Proof.
  unfold index_where, series_index.
  induction s as [|e s IH]; simpl; [reflexivity|].
  intros H. apply andb_true_iff in H as [He Hs].
  apply negb_true_iff in He. rewrite He. auto.
Qed.

Lemma index_where_all (p : float64 -> bool) (s : Series) :
  forallb (fun e => p (snd e)) s = true -> index_where p s = series_index s.
Proof.
  unfold index_where, series_index.
  induction s as [|e s IH]; simpl; [reflexivity|].
  intros H. apply andb_true_iff in H as [He Hs].
  rewrite He. simpl. now rewrite IH.
Qed.

Section EmptySelection.

Variable ext : External.
Variables (X : Frame) (y : list float64) (n : nat).
Variables (old_coeffs : DataFrame) (old_precomputed : list float64).
Variables (b : nat) (re_X : Frame) (re_y : list float64) (rp : Series).

Local Abbreviation record := (seed_record ext X y n old_coeffs old_precomputed).
Local Abbreviation regularized :=
  (regularized_params ext X y n old_coeffs old_precomputed).

(** The resample with no column left. *)
Local Abbreviation no_columns :=
  {| columns := []; rows := map (fun _ => []) (rows re_X) |}.

(** C4, as the code has it.  When the deciding coefficients of a seed
    (regularized or legacy) are all zero, the selected set is empty and every
    column is non-selected, but the refit is not skipped: it is called on
    the resample with no column.  What that call does decides the seed: if
    it raises, the seed raises the same exception (nothing is silenced and no
    record is made); if it returns no value, the record is the zero
    coefficients with the seed; and every record so made is zero outside its
    seed field. *)
Theorem empty_selection_still_refits :
  bootstrap_resample ext X y n b = Ok (re_X, re_y) ->
  snd (regularized re_X re_y b) = Ok rp ->
  forallb (fun e => is_zero (snd e)) rp = true ->
  index_where nonzero rp = []
  /\ index_where is_zero rp = series_index rp
  /\ fst (record b)
     = Print (WorkingOn b)
       :: fst (regularized re_X re_y b) ++ [OLSFit re_y no_columns]
  /\ snd (record b)
     = match ols_fit ext re_y no_columns with
       | Ok [] => Ok (series_setitem (series_getitem rp (series_index rp))
                                     "seed" (of_int b))
       | Ok (_ :: _) =>
           Raise (ValueError "Length of values does not match length of index")
       | Raise e => Raise e
       end
  /\ (forall rec e, snd (record b) = Ok rec -> In e rec ->
        e = ("seed", of_int b) \/ is_zero (snd e) = true).
Proof.
  intros Hre Hrp Hzero.
  assert (Hsel : index_where nonzero rp = []).
  { apply index_where_none. unfold nonzero.
    rewrite forallb_forall in Hzero |- *. intros e He.
    rewrite negb_involutive. auto. }
  assert (Hnon : index_where is_zero rp = series_index rp)
    by now apply index_where_all.
  assert (Hcalls : fst (record b)
                   = Print (WorkingOn b)
                     :: fst (regularized re_X re_y b) ++ [OLSFit re_y no_columns]
                   /\ snd (record b)
                      = match ols_fit ext re_y no_columns with
                        | Ok [] => Ok (series_setitem
                                         (series_getitem rp (series_index rp))
                                         "seed" (of_int b))
                        | Ok (_ :: _) =>
                            Raise (ValueError
                                     "Length of values does not match length of index")
                        | Raise e => Raise e
                        end).
  { unfold seed_record, refit_selected, ebind, lift, invoke, eret.
    cbn [fst snd app]. rewrite Hre. cbn [fst snd app]. rewrite Hrp.
    cbn [fst snd app]. rewrite Hsel, Hnon.
    change (frame_getitem re_X []) with (Ok (A := Frame) no_columns).
    cbn [fst snd app].
    destruct (ols_fit ext re_y no_columns) as [[|v vals]|e];
      cbn [fst snd app columns wrap_params List.length Nat.eqb];
      rewrite ?app_nil_r; split; reflexivity. }
  destruct Hcalls as [Hfst Hsnd].
  repeat split; try assumption.
  intros rec e Hrec Hin. rewrite Hsnd in Hrec.
  destruct (ols_fit ext re_y no_columns) as [[|v vals]|e']; try discriminate.
  inversion Hrec; subst rec.
  apply in_series_setitem in Hin as [Hin | Hin]; [now left | right].
  apply in_series_getitem in Hin.
  rewrite forallb_forall in Hzero. auto.
Qed.

End EmptySelection.

(** C4, as the specification has it, fails: with a legacy record of zeros
    for seed 0 the refit is still called, on a design with no column. *)
Lemma refit_called_on_empty_selection :
  legacy_row (fst (legacy_cache zero_disk "Yr04_oral_language")) 0
  = Ok [("a", Num 0%Q); ("a_interaction", Num 0%Q); ("seed", of_int 0)]
  /\ In (Some 0, OLSFit toy_y {| columns := []; rows := [[]; []] |})
        (fst (cte_boostrap toy (globals_with_count 1) "Yr04_oral_language"
                           zero_disk)).
Proof. split; [reflexivity | simpl; auto]. Qed.

Lemma empty_selection_still_refits_witness :
  fst (seed_record toy toy_X toy_y 2
         (fst (legacy_cache zero_disk "Yr04_oral_language"))
         (snd (legacy_cache zero_disk "Yr04_oral_language")) 0)
  = [Print (WorkingOn 0);
     OLSFit toy_y {| columns := []; rows := [[]; []] |}].
Proof.
  apply (empty_selection_still_refits toy toy_X toy_y 2
           (fst (legacy_cache zero_disk "Yr04_oral_language"))
           (snd (legacy_cache zero_disk "Yr04_oral_language"))
           0 toy_X toy_y
           [("a", Num 0%Q); ("a_interaction", Num 0%Q)]);
    reflexivity.
Defined.

(** ** Runs over the legacy cache *)

(** C2, as the specification has it, fails: the legacy cache holds seed 0
    with coefficient 5 for column a; the run calls the unregularized refit
    for that seed and writes the refitted 3 for a, not the legacy 5. *)
Lemma legacy_record_not_copied :
  legacy_row (fst (legacy_cache legacy_disk "Yr04_oral_language")) 0
  = Ok [("a", Num 5%Q); ("a_interaction", Num 0%Q); ("seed", of_int 0)]
  /\ fst (cte_boostrap toy (globals_with_count 1) "Yr04_oral_language"
                       legacy_disk)
     = [ (Some 0, Print (WorkingOn 0));
         (Some 0, OLSFit toy_y {| columns := ["a"];
                                  rows := [[Num 1%Q]; [Num 1%Q]] |});
         (Some 0, ToCsv (bootstrapped_data_path "Yr04_oral_language")
                        [ [("a_interaction", Num 0%Q); ("a", Num 3%Q);
                           ("seed", of_int 0)] ]) ].
Proof. split; reflexivity. Qed.

Lemma legacy_rows_distinct_labels :
  Forall (fun row => NoDup (series_index row))
         (fst (legacy_cache legacy_disk "Yr04_oral_language")).
Proof.
  repeat constructor; simpl; intuition discriminate.
Qed.

Lemma legacy_seed_selects_then_refits_witness :
  exists exog vals before,
    calls_of 0 (fst (cte_boostrap toy (globals_with_count 1)
                                  "Yr04_oral_language" legacy_disk))
    = [ Print (WorkingOn 0);
        OLSFit toy_y exog;
        ToCsv (bootstrapped_data_path "Yr04_oral_language")
              (before
                 ++ [post_selection_record
                       [("a", Num 5%Q); ("a_interaction", Num 0%Q)]
                       (combine (columns exog) vals) 0]) ].
Proof.
  destruct (legacy_seed_selects_then_refits
              toy (globals_with_count 1) "Yr04_oral_language" legacy_disk
              toy_X toy_y 1 eq_refl eq_refl 0 eq_refl
              legacy_rows_distinct_labels)
    as [_ [_ [_ Hok]]].
  destruct (Hok eq_refl (le_n 1) eq_refl)
    as [_ [row [re_X [re_y [exog [vals [before
          [Hrow [Hre [_ [_ Hcalls]]]]]]]]]]].
  exists exog, vals, before.
  injection Hrow as <-. injection Hre as _ <-. exact Hcalls.
Defined.



(** ** The bootstrap call of [main] *)

Lemma report_events_top (ext : External) (refit : bool) (response : string)
    (d : Disk) (o : option nat) (c : call) :
  In (o, c) (fst (report_or_refit ext refit response d)) -> o = None.
Proof.
  unfold report_or_refit.
  destruct (negb refit).
  - destruct (read_file d _); cbn [fst]; [|contradiction].
    intros [H | []]. now inversion H.
  - destruct (pull_classroom_data ext response) as [[X y]|e];
      cbn [fst]; [|contradiction].
    unfold at_top. rewrite in_map_iff. intros [c' [H _]]. now inversion H.
Qed.

(** The sample count is a local of [main]: the engine, called with the
    module's globals, cannot read it. *)
Lemma cte_boostrap_count_unbound (ext : External) (response : string)
    (d : Disk) (X : Frame) (y : list float64) :
  pull_classroom_data ext response = Ok (X, y) ->
  cte_boostrap ext module_globals response d
  = ([], Raise (NameError "num_bootstrap_samples")).
Proof. intros H. unfold cte_boostrap. now rewrite H. Qed.

(** C3, on the code.  When the bootstrap flag parses to true and [main]
    reaches the bootstrap call for the first response, the call fails: the
    name [cte_bootstrap] is not bound in the module (the engine is defined
    as [cte_boostrap]), so [main] raises NameError and no seed is ever worked
    on. *)
Theorem bootstrap_call_raises_name_error (ext : External)
    (arg_refit arg_bootstrap arg_response : string) (d : Disk)
    (refit : bool) (first : string) (rest : list string) :
  str2bool (PyStr arg_refit) = Ok refit ->
  str2bool (PyStr arg_bootstrap) = Ok true ->
  resolve_responses arg_response = Ok (first :: rest) ->
  snd (report_or_refit ext refit first d) = Ok tt ->
  snd (main ext module_globals arg_refit arg_bootstrap arg_response d)
  = Raise (NameError "cte_bootstrap")
  /\ forall b c,
       ~ In (Some b, c)
            (fst (main ext module_globals arg_refit arg_bootstrap
                       arg_response d)).
Proof.
  intros Hrefit Hboot Hresp Hreport.
  unfold main. rewrite Hrefit, Hboot, Hresp.
  cbn [for_responses]. rewrite Hreport.
  change (call_cte_bootstrap ext module_globals first
            (replay (fst (report_or_refit ext refit first d)) d))
    with (@nil event, @Raise unit (NameError "cte_bootstrap")).
  cbn [fst snd]. split; [reflexivity|].
  intros b c Hin. rewrite app_nil_r in Hin.
  apply in_app_or in Hin as [[H | []] | Hin]; [discriminate|].
  apply in_app_or in Hin as [[H | []] | Hin]; [discriminate|].
  apply report_events_top in Hin. discriminate.
Qed.

Lemma bootstrap_call_raises_name_error_witness :
  snd (main toy module_globals "False" "true" "oral" results_disk)
  = Raise (NameError "cte_bootstrap").
Proof.
  exact (proj1 (bootstrap_call_raises_name_error
                  toy "False" "true" "oral" results_disk
                  false "Yr04_oral_language" []
                  eq_refl eq_refl eq_refl eq_refl)).
Defined.

(** * Further properties of the bootstrap engine *)

(** ** The loop, seed by seed *)

Lemma of_int_eqb (a b : nat) :
  float_eqb (of_int a) (of_int b) = (a =? b)%nat.
Proof.
  unfold float_eqb, of_int.
  destruct (a =? b)%nat eqn:Hab.
  - apply Nat.eqb_eq in Hab. subst b. apply Qeq_bool_iff. reflexivity.
  - apply Nat.eqb_neq in Hab.
    destruct (Qeq_bool (inject_Z (Z.of_nat a)) (inject_Z (Z.of_nat b))) eqn:Hq;
      [|reflexivity].
    apply Qeq_bool_iff in Hq. unfold Qeq in Hq. simpl in Hq. lia.
Qed.

Lemma filter_idem {A} (p : A -> bool) (l : list A) :
  filter p (filter p l) = filter p l.
Proof.
  induction l as [|a l IH]; simpl; [reflexivity|].
  destruct (p a) eqn:Ha; simpl; [rewrite Ha; now f_equal | exact IH].
Qed.

Lemma drop_unnamed_idem (df : DataFrame) :
  drop_unnamed (drop_unnamed df) = drop_unnamed df.
Proof.
  unfold drop_unnamed. rewrite map_map. apply map_ext.
  intros row. apply filter_idem.
Qed.

Lemma filter_all {A} (p : A -> bool) (l : list A) :
  forallb p l = true -> filter p l = l.
Proof.
  induction l as [|a l IH]; cbn [forallb filter]; [reflexivity|].
  intros H. apply andb_true_iff in H as [Ha Hl].
  rewrite Ha. now rewrite (IH Hl).
Qed.

Lemma drop_unnamed_clean (df : DataFrame) :
  no_unnamed_label df = true -> drop_unnamed df = df.
Proof.
  unfold no_unnamed_label, drop_unnamed.
  induction df as [|row df IH]; cbn [forallb map]; [reflexivity|].
  intros H. apply andb_true_iff in H as [Hrow Hdf].
  rewrite (IH Hdf). now rewrite (filter_all _ row Hrow).
Qed.

Lemma load_cache_loaded_idem (d : Disk) (path : string) :
  drop_unnamed (fst (load_cache d path)) = fst (load_cache d path).
Proof.
  unfold load_cache. destruct (read_file d path); [|reflexivity].
  apply drop_unnamed_idem.
Qed.

Section LoopMore.

Variable ext : External.
Variables (X : Frame) (y : list float64) (n : nat).
Variable precomputed : list float64.
Variables (old_coeffs : DataFrame) (old_precomputed : list float64).
Variable path : string.

Local Abbreviation record := (seed_record ext X y n old_coeffs old_precomputed).
Local Abbreviation loop :=
  (bootstrap_loop ext X y n precomputed old_coeffs old_precomputed path).
Local Abbreviation todo := (fun b => negb (seed_in b precomputed)).
Local Abbreviation rec := (fun b => record_of (record b)).

Ltac by_seed seeds coeffs :=
  let b := fresh "b" in
  let IH := fresh "IH" in
  let Hskip := fresh "Hskip" in
  let Hrec := fresh "Hrec" in
  let r := fresh "r" in
  let e := fresh "e" in
  induction seeds as [|b seeds IH]; intros coeffs;
  [ cbn [bootstrap_loop filter map]
  | destruct (seed_in b precomputed) eqn:Hskip;
    [ rewrite (loop_skip ext X y n precomputed old_coeffs old_precomputed
                         path b seeds coeffs Hskip)
    | destruct (snd (record b)) as [r|e] eqn:Hrec;
      [ rewrite (loop_ok ext X y n precomputed old_coeffs old_precomputed
                         path b seeds coeffs r Hskip Hrec)
      | rewrite (loop_raise ext X y n precomputed old_coeffs old_precomputed
                            path b seeds coeffs e Hskip Hrec) ] ];
    cbn [filter]; rewrite ?Hskip; cbn [negb map fst snd] ].

Lemma record_of_ok (b : nat) (r : Series) :
  snd (record b) = Ok r -> rec b = r.
Proof. intros H. unfold record_of. now rewrite H. Qed.

(** The loop ends well exactly when every seed it has to compute does, and
    then the table is the one it started from followed by their records. *)
Lemma loop_ok_iff (seeds : list nat) :
  forall coeffs coeffs' : DataFrame,
  snd (loop seeds coeffs) = Ok coeffs'
  <-> Forall (fun b => exists r, snd (record b) = Ok r) (filter todo seeds)
      /\ coeffs' = coeffs ++ map rec (filter todo seeds).
Proof.
  by_seed seeds coeffs; intros coeffs'.
  - rewrite app_nil_r. split.
    + intros H. inversion H. auto.
    + intros [_ ->]. reflexivity.
  - apply IH.
  - rewrite (IH (coeffs ++ [r]) coeffs'). rewrite (record_of_ok b r Hrec).
    rewrite <- app_assoc. cbn [app]. split.
    + intros [Hall ->]. split; [|reflexivity]. constructor; eauto.
    + intros [Hall ->]. split; [|reflexivity]. now inversion Hall.
  - split; [discriminate|]. intros [Hall _].
    inversion Hall as [|? ? [r Hr] _]; subst. congruence.
Qed.

(** Every table written is the starting table followed by the records of
    the first few seeds to compute, all of which ended well. *)
Lemma loop_written_prefix (seeds : list nat) :
  forall (coeffs : DataFrame) (o : option nat) (p : string) (df : DataFrame),
  In (o, ToCsv p df) (fst (loop seeds coeffs)) ->
  p = path
  /\ exists k,
       df = coeffs ++ map rec (firstn k (filter todo seeds))
       /\ Forall (fun b => exists r, snd (record b) = Ok r)
                 (firstn k (filter todo seeds)).
Proof.
  by_seed seeds coeffs; intros o p df Hin.
  - contradiction.
  - exact (IH coeffs o p df Hin).
  - apply in_app_or in Hin as [Hin | Hin].
    + apply in_at_seed in Hin as [_ Hin].
      apply in_app_or in Hin as [Hin | [Hin | []]].
      * destruct (record_calls ext X y n old_coeffs old_precomputed b)
          as [rest [Hcalls Hquiet]].
        rewrite Hcalls in Hin. destruct Hin as [Hin | Hin]; [discriminate|].
        rewrite forallb_forall in Hquiet. specialize (Hquiet _ Hin).
        simpl in Hquiet. discriminate.
      * inversion Hin; subst. split; [reflexivity|]. exists 1.
        cbn [firstn map].
        rewrite (record_of_ok b r Hrec). split; [reflexivity|].
        constructor; eauto.
    + destruct (IH (coeffs ++ [r]) o p df Hin) as [-> [k [-> Hall]]].
      split; [reflexivity|]. exists (S k). cbn [firstn map].
      rewrite (record_of_ok b r Hrec), <- app_assoc. split; [reflexivity|].
      constructor; eauto.
  - apply in_at_seed in Hin as [_ Hin].
    destruct (record_calls ext X y n old_coeffs old_precomputed b)
      as [rest [Hcalls Hquiet]].
    rewrite Hcalls in Hin. destruct Hin as [Hin | Hin]; [discriminate|].
    rewrite forallb_forall in Hquiet. specialize (Hquiet _ Hin).
    simpl in Hquiet. discriminate.
Qed.

(** When the loop raises, it is the computation of one seed that raised:
    that seed wrote nothing, no later seed was touched, and every seed to
    compute before it had its table written. *)
Lemma loop_raise_inv (seeds : list nat) :
  forall (coeffs : DataFrame) (e : exn),
  StronglySorted lt seeds ->
  snd (loop seeds coeffs) = Raise e ->
  exists b,
    In b seeds /\ seed_in b precomputed = false
    /\ snd (record b) = Raise e
    /\ (forall c, In (Some b, c) (fst (loop seeds coeffs)) ->
          is_to_csv c = false)
    /\ (forall b' c, In (Some b', c) (fst (loop seeds coeffs)) -> b' <= b)
    /\ (forall b', In b' seeds -> b' < b -> seed_in b' precomputed = false ->
          exists df, In (Some b', ToCsv path df) (fst (loop seeds coeffs))).
Proof.
  by_seed seeds coeffs; intros e0 Hsorted Hraise.
  - discriminate.
  - inversion Hsorted as [|? ? Hs Hlt]; subst.
    destruct (IH coeffs e0 Hs Hraise) as [b0 [Hin [Htodo [Hr [Hno [Hle Hbefore]]]]]].
    exists b0. repeat split; auto; [now right|].
    intros b' [-> | Hb'] Hlt' Hs'; [congruence | now apply Hbefore].
  - inversion Hsorted as [|? ? Hs Hlt]; subst.
    destruct (IH (coeffs ++ [r]) e0 Hs Hraise)
      as [b0 [Hin [Htodo [Hr [Hno [Hle Hbefore]]]]]].
    assert (Hb0 : b < b0) by (rewrite Forall_forall in Hlt; auto).
    exists b0. repeat split; auto; [now right | | |].
    + intros c Hc. apply in_app_or in Hc as [Hc | Hc]; [|now apply Hno].
      apply in_at_seed in Hc as [Heq _]. inversion Heq. lia.
    + intros b' c Hc. apply in_app_or in Hc as [Hc | Hc]; [|now apply (Hle b' c)].
      apply in_at_seed in Hc as [Heq _]. inversion Heq. lia.
    + intros b' [<- | Hb'] Hlt' Hs'.
      * exists (coeffs ++ [r]). apply in_or_app. left.
        apply in_at_seed. split; [reflexivity|]. apply in_or_app. right.
        now left.
      * destruct (Hbefore b' Hb' Hlt' Hs') as [df Hdf].
        exists df. apply in_or_app. now right.
  - inversion Hraise; subst e0.
    inversion Hsorted as [|? ? Hs Hlt]; subst.
    exists b. repeat split; auto; [now left | | |].
    + intros c Hc. apply in_at_seed in Hc as [_ Hc].
      destruct (record_calls ext X y n old_coeffs old_precomputed b)
        as [rest [Hcalls Hquiet]].
      rewrite Hcalls in Hc. destruct Hc as [<- | Hc]; [reflexivity|].
      rewrite forallb_forall in Hquiet. specialize (Hquiet _ Hc).
      apply andb_true_iff in Hquiet as [_ Hq]. now apply negb_true_iff in Hq.
    + intros b' c Hc. apply in_at_seed in Hc as [Heq _]. inversion Heq. lia.
    + intros b' [<- | Hb'] Hlt' Hs'; [lia|].
      rewrite Forall_forall in Hlt. specialize (Hlt b' Hb'). lia.
Qed.

End LoopMore.

(** ** Files other than the cache of the response *)

Lemma paths_differ (response : string) :
  old_data_path response <> bootstrapped_data_path response.
Proof.
  unfold old_data_path, bootstrapped_data_path. simpl. intros H.
  inversion H.
Qed.

Lemma replay_other_file (path p : string) (evs : list event) :
  forall d : Disk,
  (forall o q df, In (o, ToCsv q df) evs -> q = path) ->
  p <> path ->
  read_file (replay evs d) p = read_file d p.
Proof.
  induction evs as [|[o c] evs IH]; intros d Hall Hp; [reflexivity|].
  assert (Hrest : forall o' q df, In (o', ToCsv q df) evs -> q = path)
    by (intros o' q df Hin; apply (Hall o' q df); now right).
  destruct c; cbn [replay]; try (now apply IH).
  rewrite (IH _ Hrest Hp).
  assert (Hq : path0 = path) by (apply (Hall o path0 df); now left).
  subst path0. unfold read_file, write_file. cbn [find fst].
  apply String.eqb_neq in Hp. rewrite String.eqb_sym in Hp. now rewrite Hp.
Qed.

Lemma run_writes_one_path (ext : External) (g : Globals) (response : string)
    (d : Disk) (o : option nat) (q : string) (df : DataFrame) :
  In (o, ToCsv q df) (fst (cte_boostrap ext g response d)) ->
  q = bootstrapped_data_path response.
Proof.
  unfold cte_boostrap.
  destruct (pull_classroom_data ext response) as [[X y]|e]; [|contradiction].
  destruct (global_range g "num_bootstrap_samples") as [seeds|e];
    [|contradiction].
  cbn [fst]. intros Hin. now apply loop_written_prefix in Hin as [-> _].
Qed.

(** X2. A bootstrap run, whether it ends well or raises, writes no file but
    the bootstrap cache of its response: every other file reads as before,
    and so the legacy cache is loaded the same after the run as before it. *)
Theorem run_writes_only_its_cache (ext : External) (g : Globals)
    (response : string) (d : Disk) (p : string) :
  p <> bootstrapped_data_path response ->
  read_file (replay (fst (cte_boostrap ext g response d)) d) p = read_file d p
  /\ legacy_cache (replay (fst (cte_boostrap ext g response d)) d) response
     = legacy_cache d response.
Proof.
  intros Hp.
  assert (Hother : forall p', p' <> bootstrapped_data_path response ->
            read_file (replay (fst (cte_boostrap ext g response d)) d) p'
            = read_file d p').
  { intros p' Hp'. apply (replay_other_file (bootstrapped_data_path response));
      [|exact Hp'].
    intros o q df. apply run_writes_one_path. }
  split; [now apply Hother|].
  unfold legacy_cache, load_cache.
  change ("results/old/" ++ response ++ "_bootstrap_coeffs.csv")%string
    with (old_data_path response).
  now rewrite (Hother _ (paths_differ response)).
Qed.

Lemma run_writes_only_its_cache_witness :
  read_file (replay (fst (cte_boostrap toy (globals_with_count 1)
                                       "Yr04_oral_language" legacy_disk))
                    legacy_disk)
            (old_data_path "Yr04_oral_language")
  = read_file legacy_disk (old_data_path "Yr04_oral_language").
Proof.
  apply (run_writes_only_its_cache toy (globals_with_count 1)
           "Yr04_oral_language" legacy_disk
           (old_data_path "Yr04_oral_language")).
  apply paths_differ.
Defined.

(** ** Seeds of a table *)

Lemma seeds_distinct_app (us vs : list float64) :
  seeds_distinct us = true -> seeds_distinct vs = true ->
  (forall u v, In u us -> In v vs -> float_eqb u v = false) ->
  seeds_distinct (us ++ vs) = true.
Proof.
  induction us as [|u us IH]; cbn [seeds_distinct app]; intros Hus Hvs Hcross;
    [assumption|].
  apply andb_true_iff in Hus as [Hu Hus]. apply andb_true_iff. split.
  - rewrite existsb_app. apply negb_true_iff in Hu. rewrite Hu. cbn [orb].
    apply negb_true_iff.
    destruct (existsb (float_eqb u) vs) eqn:Hex; [|reflexivity].
    apply existsb_exists in Hex as [v [Hv Heq]].
    rewrite (Hcross u v) in Heq; [discriminate | now left | assumption].
  - apply IH; auto. intros u' v Hu' Hv. apply Hcross; [now right | assumption].
Qed.

Lemma seeds_distinct_of_int (l : list nat) :
  StronglySorted lt l -> seeds_distinct (map of_int l) = true.
Proof.
  induction 1 as [|a l Hs IH Hall]; cbn [map seeds_distinct]; [reflexivity|].
  rewrite IH, andb_true_r. apply negb_true_iff.
  destruct (existsb (float_eqb (of_int a)) (map of_int l)) eqn:Hex;
    [|reflexivity].
  apply existsb_exists in Hex as [v [Hv Heq]].
  apply in_map_iff in Hv as [b [<- Hb]].
  rewrite of_int_eqb in Heq. apply Nat.eqb_eq in Heq.
  rewrite Forall_forall in Hall. specialize (Hall b Hb). lia.
Qed.

Lemma seed_in_of_ints (b : nat) (l : list nat) :
  seed_in b (map of_int l) = existsb (fun b' => (b' =? b)%nat) l.
Proof.
  unfold seed_in. induction l as [|a l IH]; cbn [map existsb]; [reflexivity|].
  now rewrite of_int_eqb, IH.
Qed.

Lemma existsb_lt_filter (p : nat -> bool) (b N : nat) :
  existsb (fun b' => (b' =? b)%nat) (filter p (seq 0 N)) = p b && (b <? N)%nat.
Proof.
  destruct (existsb (fun b' => (b' =? b)%nat) (filter p (seq 0 N))) eqn:Hex.
  - apply existsb_exists in Hex as [b' [Hin Heq]].
    apply Nat.eqb_eq in Heq. subst b'.
    apply filter_In in Hin as [Hin Hp]. apply in_seq in Hin.
    rewrite Hp. symmetry. apply Nat.ltb_lt. lia.
  - destruct (p b) eqn:Hp; [|reflexivity].
    destruct (b <? N)%nat eqn:Hlt; [|reflexivity].
    apply Nat.ltb_lt in Hlt.
    assert (Hin : In b (filter p (seq 0 N)))
      by (apply filter_In; split; [apply in_seq; lia | assumption]).
    assert (Htrue : existsb (fun b' => (b' =? b)%nat) (filter p (seq 0 N)) = true)
      by (apply existsb_exists; exists b; split;
          [assumption | apply Nat.eqb_refl]).
    congruence.
Qed.

(** ** What a run leaves in the cache *)

Section RunMore.

Variable ext : External.
Variables (g : Globals) (response : string) (d : Disk).
Variables (X : Frame) (y : list float64) (N : nat).

Hypothesis data_pulled : pull_classroom_data ext response = Ok (X, y).
Hypothesis count_bound : lookup_global g "num_bootstrap_samples" = Ok (PyInt N).

Local Abbreviation n := (List.length (rows X)).
Local Abbreviation coeffs0 := (fst (current_cache d response)).
Local Abbreviation precomputed := (snd (current_cache d response)).
Local Abbreviation old_coeffs := (fst (legacy_cache d response)).
Local Abbreviation old_precomputed := (snd (legacy_cache d response)).
Local Abbreviation record := (seed_record ext X y n old_coeffs old_precomputed).
Local Abbreviation loop :=
  (bootstrap_loop ext X y n precomputed old_coeffs old_precomputed
                  (bootstrapped_data_path response)).
Local Abbreviation run := (cte_boostrap ext g response d).
Local Abbreviation todo := (fun b => negb (seed_in b precomputed)).
Local Abbreviation rec := (fun b => record_of (record b)).

Lemma run_unfold :
  run = (fst (loop (seq 0 N) coeffs0),
         _ <- snd (loop (seq 0 N) coeffs0) ;; Ok tt).
Proof. exact (cte_boostrap_unfold ext g response d X y N data_pulled count_bound). Qed.

Lemma seed_column_records (l : list nat) :
  Forall (fun b => exists r, snd (record b) = Ok r) l ->
  seed_column (map rec l) = map of_int l.
Proof.
  induction 1 as [|b l [r Hr] _ IH]; cbn [map seed_column]; [reflexivity|].
  fold (seed_column (map rec l)). rewrite IH. f_equal.
  rewrite (record_of_ok ext X y n old_coeffs old_precomputed b r Hr).
  now rewrite (record_seed_field ext response d X y b r Hr).
Qed.

Lemma run_ok_inv :
  snd run = Ok tt ->
  Forall (fun b => exists r, snd (record b) = Ok r) (filter todo (seq 0 N))
  /\ snd (loop (seq 0 N) coeffs0)
     = Ok (coeffs0 ++ map rec (filter todo (seq 0 N))).
Proof.
  intros Hok.
  destruct (run_ok_loop_ok ext g response d X y N data_pulled count_bound Hok)
    as [coeffs' Hloop].
  pose proof Hloop as Hloop'.
  apply loop_ok_iff in Hloop as [Hall ->]. auto.
Qed.

Lemma loaded_after_run :
  snd run = Ok tt ->
  fst (current_cache (replay (fst run) d) response)
  = drop_unnamed (coeffs0 ++ map rec (filter todo (seq 0 N))).
Proof.
  intros Hok. destruct (run_ok_inv Hok) as [_ Hloop].
  rewrite run_unfold. cbn [fst snd].
  destruct (loop_final ext X y n precomputed old_coeffs old_precomputed
              (bootstrapped_data_path response) (seq 0 N) coeffs0 _ Hloop)
    as [new [Hnew [_ Hlast]]].
  destruct Hlast as [[-> ->] | [evs [b' ->]]].
  - cbn [replay]. rewrite Hnew, app_nil_r.
    symmetry. apply load_cache_loaded_idem.
  - rewrite replay_app. cbn [replay].
    unfold current_cache, load_cache.
    change ("results/bootstrap/" ++ response ++ "_bootstrap_coeffs.csv")%string
      with (bootstrapped_data_path response).
    rewrite read_written_file. cbn [fst snd].
    apply drop_unnamed_csv_of.
Qed.

Lemma seeds_after_run (b : nat) :
  snd run = Ok tt ->
  seed_in b (snd (current_cache (replay (fst run) d) response))
  = seed_in b precomputed || (b <? N)%nat.
Proof.
  intros Hok.
  unfold current_cache at 1. rewrite seed_in_load_cache.
  fold (current_cache (replay (fst run) d) response).
  rewrite (loaded_after_run Hok), seed_column_drop_unnamed.
  unfold seed_column. rewrite map_app.
  fold (seed_column coeffs0). fold (seed_column (map rec (filter todo (seq 0 N)))).
  rewrite seed_in_app.
  rewrite seed_column_records by apply (run_ok_inv Hok).
  rewrite seed_in_of_ints, (existsb_lt_filter todo).
  unfold current_cache. rewrite <- seed_in_load_cache.
  fold (current_cache d response).
  destruct (seed_in b precomputed); reflexivity.
Qed.

(** X3. A run that ends well leaves a cache that loads as the table it
    found, followed by the records of the seeds below the count that the
    table lacked, in increasing order of seed; the seeds it then holds are
    those it held before and every seed below the count. *)
Theorem run_leaves_loaded_then_new_records :
  snd run = Ok tt ->
  fst (current_cache (replay (fst run) d) response)
  = drop_unnamed (coeffs0 ++ map rec (filter todo (seq 0 N)))
  /\ Forall (fun b => exists r, snd (record b) = Ok r
                                /\ series_get "seed" r = Some (of_int b))
            (filter todo (seq 0 N))
  /\ forall b,
       seed_in b (snd (current_cache (replay (fst run) d) response))
       = seed_in b precomputed || (b <? N)%nat.
Proof.
  intros Hok. split; [now apply loaded_after_run|]. split.
  - eapply Forall_impl; [|apply (run_ok_inv Hok)].
    intros b [r Hr]. exists r. split; [assumption|].
    now apply (record_seed_field ext response d X y b r).
  - intros b. now apply seeds_after_run.
Qed.

(** X1. When a run raises (the data were pulled and the count is bound), it
    is the computation of one seed that raised, with that very exception:
    the seed wrote nothing, no later seed was touched, and every seed to
    compute before it had its table written. *)
Theorem failed_seed_halts_run (e : exn) :
  snd run = Raise e ->
  exists b,
    b < N /\ seed_in b precomputed = false
    /\ snd (record b) = Raise e
    /\ (forall c, In (Some b, c) (fst run) -> is_to_csv c = false)
    /\ (forall b' c, In (Some b', c) (fst run) -> b' <= b)
    /\ (forall b', b' < b -> seed_in b' precomputed = false ->
          exists df,
            In (Some b', ToCsv (bootstrapped_data_path response) df) (fst run)).
Proof.
  rewrite run_unfold. cbn [fst snd]. intros Hraise.
  assert (Hloop : snd (loop (seq 0 N) coeffs0) = Raise e).
  { destruct (snd (loop (seq 0 N) coeffs0)) as [c|e0]; [discriminate|].
    cbn [rbind] in Hraise. now inversion Hraise. }
  destruct (loop_raise_inv ext X y n precomputed old_coeffs old_precomputed
              (bootstrapped_data_path response) (seq 0 N) coeffs0 e
              (seq_sorted 0 N) Hloop)
    as [b [Hin [Htodo [Hr [Hno [Hle Hbefore]]]]]].
  apply in_seq in Hin.
  exists b. repeat split; auto; [lia|].
  intros b' Hlt Hs. apply Hbefore; auto. apply in_seq. lia.
Qed.

(** X5. The run keeps the seeds of the cache distinct: if no two rows of
    the loaded table carry the same seed, then no two rows of any table the
    run writes do. *)
Theorem written_seeds_distinct (o : option nat) (p : string) (df : DataFrame) :
  seeds_distinct (seed_column coeffs0) = true ->
  In (o, ToCsv p df) (fst run) ->
  seeds_distinct (seed_column df) = true.
Proof.
  intros Hdistinct. rewrite run_unfold. cbn [fst]. intros Hin.
  apply loop_written_prefix in Hin as [_ [k [-> Hall]]].
  unfold seed_column. rewrite map_app.
  fold (seed_column coeffs0).
  fold (seed_column (map rec (firstn k (filter todo (seq 0 N))))).
  rewrite (seed_column_records _ Hall).
  apply seeds_distinct_app; [assumption | |].
  - apply seeds_distinct_of_int, firstn_sorted, filter_sorted, seq_sorted.
  - intros u v Hu Hv. apply in_map_iff in Hv as [b [<- Hb]].
    assert (Htodo : seed_in b precomputed = false).
    { assert (Hb' : In b (filter todo (seq 0 N))).
      { rewrite <- (firstn_skipn k (filter todo (seq 0 N))).
        apply in_or_app. now left. }
      apply filter_In in Hb' as [_ Hb']. now apply negb_true_iff in Hb'. }
    unfold current_cache in Htodo. rewrite seed_in_load_cache in Htodo.
    fold (current_cache d response) in Htodo.
    unfold seed_in in Htodo.
    destruct (float_eqb u (of_int b)) eqn:Heq; [|reflexivity].
    assert (Hex : existsb (fun v => float_eqb v (of_int b)) (seed_column coeffs0)
                  = true)
      by (apply existsb_exists; now exists u).
    congruence.
Qed.

End RunMore.

(** ** Resuming a run *)

Lemma load_cache_seeds (d : Disk) (path : string) :
  snd (load_cache d path) = unique (seed_column (fst (load_cache d path))).
Proof. unfold load_cache. now destruct (read_file d path). Qed.

Lemma legacy_cache_after_run (ext : External) (g : Globals)
    (response : string) (d : Disk) :
  legacy_cache (replay (fst (cte_boostrap ext g response d)) d) response
  = legacy_cache d response.
Proof.
  unfold legacy_cache, load_cache.
  change ("results/old/" ++ response ++ "_bootstrap_coeffs.csv")%string
    with (old_data_path response).
  rewrite (replay_other_file (bootstrapped_data_path response));
    [reflexivity | | apply paths_differ].
  intros o q df. apply run_writes_one_path.
Qed.

Lemma filter_seq_from (p q : nat -> bool) (N1 N : nat) :
  N1 <= N ->
  (forall b, q b = p b && negb (b <? N1)%nat) ->
  filter q (seq 0 N) = filter p (seq N1 (N - N1))
  /\ filter p (seq 0 N)
     = filter p (seq 0 N1) ++ filter p (seq N1 (N - N1)).
Proof.
  intros Hle Hq.
  replace N with (N1 + (N - N1)) at 1 3 by lia.
  rewrite seq_app, !filter_app. cbn [plus]. split; [|reflexivity].
  assert (Hlow : filter q (seq 0 N1) = []).
  { assert (Hall : forall b', In b' (seq 0 N1) -> q b' = false).
    { intros b' Hb'. apply in_seq in Hb'. rewrite Hq.
      assert (Hlt : (b' <? N1)%nat = true) by (apply Nat.ltb_lt; lia).
      rewrite Hlt. apply andb_false_r. }
    revert Hall. generalize (seq 0 N1) as l.
    induction l as [|a l IH]; intros Hall; [reflexivity|].
    cbn [filter]. rewrite (Hall a) by now left.
    apply IH. intros b' Hb'. apply Hall. now right. }
  rewrite Hlow. cbn [app].
  apply filter_ext_in. intros b Hb. apply in_seq in Hb. rewrite Hq.
  assert (Hge : (b <? N1)%nat = false) by (apply Nat.ltb_ge; lia).
  rewrite Hge. apply andb_true_r.
Qed.

Section Resume.

Variable ext : External.
Variables (g1 g : Globals) (response : string) (d : Disk).
Variables (X : Frame) (y : list float64) (N1 N : nat).

Hypothesis data_pulled : pull_classroom_data ext response = Ok (X, y).
Hypothesis first_count : lookup_global g1 "num_bootstrap_samples" = Ok (PyInt N1).
Hypothesis count_bound : lookup_global g "num_bootstrap_samples" = Ok (PyInt N).
Hypothesis fewer_first : N1 <= N.

(** The files after a first run over the seeds below [N1]. *)
Local Abbreviation d1 := (replay (fst (cte_boostrap ext g1 response d)) d).

(** X4. Resuming gives what a single run gives.  Let a run over the seeds
    below [N1] end well, and a second run over the seeds below [N], from the
    files the first one left, end well too.  Then a single run over the
    seeds below [N] from the original files ends well, and the cache it
    leaves loads exactly as the cache left by the two runs: same rows, same
    seeds. *)
Theorem resumed_run_equals_single_run :
  snd (cte_boostrap ext g1 response d) = Ok tt ->
  snd (cte_boostrap ext g response d1) = Ok tt ->
  snd (cte_boostrap ext g response d) = Ok tt
  /\ current_cache (replay (fst (cte_boostrap ext g response d1)) d1) response
     = current_cache (replay (fst (cte_boostrap ext g response d)) d) response.
Proof.
  intros Hfirst Hsecond.
  pose proof (legacy_cache_after_run ext g1 response d) as Hleg.
  pose proof (loaded_after_run ext g1 response d X y N1
                data_pulled first_count Hfirst) as Hload1.
  pose proof (run_ok_inv ext g1 response d X y N1
                data_pulled first_count Hfirst) as [Hall1 _].
  pose proof (loaded_after_run ext g response d1 X y N
                data_pulled count_bound Hsecond) as Hload2.
  pose proof (run_ok_inv ext g response d1 X y N
                data_pulled count_bound Hsecond) as [Hall2 _].
  rewrite Hleg in Hload2, Hall2.
  destruct (filter_seq_from
              (fun b => negb (seed_in b (snd (current_cache d response))))
              (fun b => negb (seed_in b (snd (current_cache d1 response))))
              N1 N fewer_first) as [Hlater Hsplit].
  { intros b.
    rewrite (seeds_after_run ext g1 response d X y N1
               data_pulled first_count b Hfirst).
    now rewrite negb_orb. }
  rewrite Hlater in Hload2, Hall2.
  assert (Hall : Forall (fun b => exists r,
                           snd (seed_record ext X y (List.length (rows X))
                                  (fst (legacy_cache d response))
                                  (snd (legacy_cache d response)) b) = Ok r)
                        (filter (fun b => negb (seed_in b (snd (current_cache d response))))
                                (seq 0 N))).
  { rewrite Hsplit. apply Forall_app. split; assumption. }
  assert (Hsingle : snd (cte_boostrap ext g response d) = Ok tt).
  { rewrite (cte_boostrap_unfold ext g response d X y N data_pulled count_bound).
    cbn [snd].
    assert (Hloop : snd (bootstrap_loop ext X y (List.length (rows X))
                           (snd (current_cache d response))
                           (fst (legacy_cache d response))
                           (snd (legacy_cache d response))
                           (bootstrapped_data_path response) (seq 0 N)
                           (fst (current_cache d response)))
                    = Ok (fst (current_cache d response)
                          ++ map (fun b => record_of
                                    (seed_record ext X y (List.length (rows X))
                                       (fst (legacy_cache d response))
                                       (snd (legacy_cache d response)) b))
                                 (filter (fun b => negb (seed_in b
                                            (snd (current_cache d response))))
                                         (seq 0 N))))
      by (apply loop_ok_iff; split; [exact Hall | reflexivity]).
    now rewrite Hloop. }
  split; [exact Hsingle|].
  pose proof (loaded_after_run ext g response d X y N
                data_pulled count_bound Hsingle) as Hload.
  assert (Hrows : fst (current_cache
                         (replay (fst (cte_boostrap ext g response d1)) d1)
                         response)
                  = fst (current_cache
                           (replay (fst (cte_boostrap ext g response d)) d)
                           response)).
  { rewrite Hload2, Hload, Hload1, Hsplit.
    unfold drop_unnamed.
    set (f := filter (fun e : string * float64 =>
                        negb (contains "Unnamed" (fst e)))).
    assert (Hidem : forall l, map f (map f l) = map f l).
    { intros l. rewrite map_map. apply map_ext. intros r. apply filter_idem. }
    rewrite !map_app, !Hidem, <- ?app_assoc. reflexivity. }
  unfold current_cache in *.
  rewrite (surjective_pairing (load_cache (replay (fst (cte_boostrap ext g response d1)) d1) _)).
  rewrite (surjective_pairing (load_cache (replay (fst (cte_boostrap ext g response d)) d) _)).
  rewrite !load_cache_seeds. now rewrite Hrows.
Qed.

End Resume.

Lemma failed_seed_halts_run_witness :
  exists b,
    b < 2
    /\ snd (seed_record toy toy_X toy_y 2
              (fst (legacy_cache two_column_disk "Yr04_oral_language"))
              (snd (legacy_cache two_column_disk "Yr04_oral_language")) b)
       = Raise LinAlgError
    /\ forall b' c,
         In (Some b', c)
            (fst (cte_boostrap toy (globals_with_count 2) "Yr04_oral_language"
                               two_column_disk)) ->
         b' <= b.
Proof.
  destruct (failed_seed_halts_run
              toy (globals_with_count 2) "Yr04_oral_language" two_column_disk
              toy_X toy_y 2 eq_refl eq_refl LinAlgError eq_refl)
    as [b [Hb [_ [Hr [_ [Hle _]]]]]].
  exists b. auto.
Defined.

Lemma run_leaves_loaded_then_new_records_witness :
  fst (current_cache
         (replay (fst (cte_boostrap toy (globals_with_count 2)
                                    "Yr04_oral_language" legacy_disk))
                 legacy_disk)
         "Yr04_oral_language")
  = [ [("a_interaction", Num 0%Q); ("a", Num 3%Q); ("seed", of_int 0)];
      [("a_interaction", Num 0%Q); ("a", Num 3%Q); ("seed", of_int 1)] ].
Proof.
  exact (proj1 (run_leaves_loaded_then_new_records
                  toy (globals_with_count 2) "Yr04_oral_language" legacy_disk
                  toy_X toy_y 2 eq_refl eq_refl eq_refl)).
Defined.

Lemma written_seeds_distinct_witness :
  seeds_distinct
    (seed_column
       [ [("a_interaction", Num 0%Q); ("a", Num 3%Q); ("seed", of_int 0)];
         [("a_interaction", Num 0%Q); ("a", Num 3%Q); ("seed", of_int 1)] ])
  = true.
Proof.
  apply (written_seeds_distinct
           toy (globals_with_count 2) "Yr04_oral_language" []
           toy_X toy_y 2 eq_refl eq_refl
           (Some 1) (bootstrapped_data_path "Yr04_oral_language")).
  - reflexivity.
  - vm_compute. repeat (first [left; reflexivity | right]).
Defined.

(** One seed first, then three in all, against three at once. *)
Lemma resumed_run_equals_single_run_witness :
  current_cache
    (replay (fst (cte_boostrap toy (globals_with_count 3) "Yr04_oral_language"
                    (replay (fst (cte_boostrap toy (globals_with_count 1)
                                    "Yr04_oral_language" legacy_disk))
                            legacy_disk)))
            (replay (fst (cte_boostrap toy (globals_with_count 1)
                            "Yr04_oral_language" legacy_disk))
                    legacy_disk))
    "Yr04_oral_language"
  = current_cache
      (replay (fst (cte_boostrap toy (globals_with_count 3)
                                 "Yr04_oral_language" legacy_disk))
              legacy_disk)
      "Yr04_oral_language".
Proof.
  apply (resumed_run_equals_single_run
           toy (globals_with_count 1) (globals_with_count 3)
           "Yr04_oral_language" legacy_disk toy_X toy_y 1 3
           eq_refl eq_refl eq_refl).
  - lia.
  - reflexivity.
  - reflexivity.
Defined.

(** ** Writing the cache and loading it again *)

(** X6. A table written with [to_csv] and loaded again as [cte_boostrap]
    loads its caches comes back without the row index that the file gained
    and without any column whose name contains Unnamed, and with the same
    seeds; a table with no such column comes back as it was, a predictor so
    named is lost. *)
Theorem cache_round_trip (path : string) (df : DataFrame) (d : Disk)
    (o : option nat) :
  load_cache (replay [(o, ToCsv path df)] d) path
  = (drop_unnamed df, unique (seed_column df))
  /\ (no_unnamed_label df = true ->
      fst (load_cache (replay [(o, ToCsv path df)] d) path) = df).
Proof.
  assert (Hload : load_cache (replay [(o, ToCsv path df)] d) path
                  = (drop_unnamed df, unique (seed_column df))).
  { cbn [replay]. unfold load_cache. rewrite read_written_file.
    now rewrite drop_unnamed_csv_of, seed_column_drop_unnamed. }
  split; [exact Hload|].
  intros Hclean. rewrite Hload. cbn [fst]. now apply drop_unnamed_clean.
Qed.

Lemma cache_round_trip_witness :
  fst (load_cache
         (replay [(Some 0, ToCsv "cache.csv"
                             [ [("a", Num 3%Q); ("seed", of_int 0)] ])] [])
         "cache.csv")
  = [ [("a", Num 3%Q); ("seed", of_int 0)] ]
  /\ fst (load_cache (replay [(Some 0, ToCsv "cache.csv" marked_table)] [])
                     "cache.csv")
     = [ [("a", Num 3%Q); ("seed", of_int 0)] ].
Proof.
  split.
  - apply (cache_round_trip "cache.csv"
             [ [("a", Num 3%Q); ("seed", of_int 0)] ] [] (Some 0)).
    reflexivity.
  - exact (f_equal fst (proj1 (cache_round_trip "cache.csv" marked_table []
                                 (Some 0)))).
Defined.

(** ** A design with no row *)

(** X7. With a Design Matrix that has no row, no index is drawn and the
    resample of every seed is the design again, no row under the same
    columns, with an empty response; the seed then goes on as on any other
    data: one that neither cache holds is announced and calls the grid
    search on the full data. *)
Theorem no_rows_empty_resample (ext : External) (X : Frame)
    (y : list float64) (old_coeffs : DataFrame)
    (old_precomputed : list float64) (b : nat) :
  rows X = [] ->
  bootstrap_resample ext X y (List.length (rows X)) b
  = Ok ({| columns := columns X; rows := [] |}, [])
  /\ (seed_in b old_precomputed = false ->
      exists rest,
        fst (seed_record ext X y (List.length (rows X))
                         old_coeffs old_precomputed b)
        = Print (WorkingOn b) :: GridSearch X y (Some 5) :: rest).
Proof.
  intros Hrows. rewrite Hrows. cbn [List.length].
  assert (Hre : bootstrap_resample ext X y 0 b
                = Ok ({| columns := columns X; rows := [] |}, []))
    by reflexivity.
  split; [exact Hre|].
  intros Hleg.
  unfold seed_record, regularized_params, ebind, lift, invoke.
  cbn [fst snd app]. rewrite Hre. cbn [fst snd app]. rewrite Hleg.
  cbn [fst snd app].
  destruct (full_grid_search ext X y (Some 5)) as [l12|e]; cbn [fst snd app];
    [|eauto].
  destruct (fit_regularized ext _ _ _) as [values|e]; cbn [fst snd app];
    [|eauto].
  destruct (wrap_params _ values) as [rp|e]; cbn [fst snd app]; eauto.
Qed.

Lemma no_rows_empty_resample_witness :
  bootstrap_resample toy_no_rows {| columns := ["a"]; rows := [] |} [] 0 0
  = Ok ({| columns := ["a"]; rows := [] |}, [])
  /\ exists rest,
       fst (seed_record toy_no_rows {| columns := ["a"]; rows := [] |} [] 0
                        [] [] 0)
       = Print (WorkingOn 0)
         :: GridSearch {| columns := ["a"]; rows := [] |} [] (Some 5) :: rest.
Proof.
  destruct (no_rows_empty_resample toy_no_rows
              {| columns := ["a"]; rows := [] |} [] [] [] 0 eq_refl)
    as [Hre Hcalls].
  split; [exact Hre | exact (Hcalls eq_refl)].
Defined.

(** ** Selecting columns of the resample *)

Lemma positions_present (l : string) (cols : list string) (from : nat) :
  In l cols -> positions l cols from <> [].
Proof.
  revert from. induction cols as [|c cols IH]; intros from Hin;
    [contradiction|].
  cbn [positions]. destruct (c =? l) eqn:Hc; cbn [app]; [discriminate|].
  destruct Hin as [-> | Hin]; [now rewrite String.eqb_refl in Hc|].
  now apply IH.
Qed.

Lemma frame_getitem_missing (F : Frame) (labels : list string) (c : string) :
  In c labels -> ~ In c (columns F) ->
  exists c', In c' labels /\ ~ In c' (columns F)
             /\ frame_getitem F labels = Raise (KeyError c').
Proof.
  unfold frame_getitem.
  induction labels as [|l labels IH]; intros Hin Hmiss; [contradiction|].
  cbn [mapM].
  destruct (positions l (columns F) 0) as [|p0 ps] eqn:Hpos.
  - exists l. split; [now left|]. split; [|reflexivity].
    intros Hl. now apply (positions_present l (columns F) 0) in Hl.
  - cbn [rbind].
    destruct Hin as [-> | Hin].
    + rewrite positions_absent in Hpos by assumption. discriminate.
    + destruct (IH Hin Hmiss) as [c' [Hc' [Hno Hraise]]].
      exists c'. split; [now right|]. split; [assumption|].
      destruct (mapM _ labels) as [picks|e]; cbn [rbind] in Hraise |- *;
        [discriminate | exact Hraise].
Qed.

Lemma frame_getitem_present (F : Frame) (labels : list string) :
  incl labels (columns F) -> exists exog, frame_getitem F labels = Ok exog.
Proof.
  unfold frame_getitem. intros Hincl.
  assert (Hpicks : exists picks,
            mapM (fun l => match positions l (columns F) 0 with
                           | [] => Raise (KeyError l)
                           | ps => Ok (map (fun p => (l, p)) ps)
                           end) labels = Ok picks).
  { induction labels as [|l labels IH]; [now exists []|].
    cbn [mapM].
    destruct (positions l (columns F) 0) as [|p0 ps] eqn:Hpos.
    - exfalso. apply (positions_present l (columns F) 0); [|exact Hpos].
      apply Hincl. now left.
    - destruct IH as [picks ->]; [intros c Hc; apply Hincl; now right|].
      cbn [rbind]. eauto. }
  destruct Hpicks as [picks ->]. cbn [rbind]. eauto.
Qed.

Lemma in_series_getitem_label (s : Series) (labels : list string)
    (e : string * float64) :
  In e s -> In (fst e) labels -> In e (series_getitem s labels).
Proof.
  intros He Hl. unfold series_getitem. apply in_flat_map.
  exists (fst e). split; [assumption|].
  apply filter_In. split; [assumption | apply String.eqb_refl].
Qed.

Lemma index_where_incl (p : float64 -> bool) (s : Series) :
  incl (index_where p s) (series_index s).
Proof.
  unfold index_where, series_index. intros c Hc.
  apply in_map_iff in Hc as [e [<- He]].
  apply filter_In in He as [He _]. now apply in_map.
Qed.

(** ** How one seed ends *)

Section SeedOutcomes.

Variable ext : External.
Variables (X : Frame) (y : list float64) (n : nat).
Variables (old_coeffs : DataFrame) (old_precomputed : list float64).
Variables (b : nat) (re_X : Frame) (re_y : list float64).

Hypothesis resampled : bootstrap_resample ext X y n b = Ok (re_X, re_y).

Local Abbreviation record := (seed_record ext X y n old_coeffs old_precomputed).

(** X8. A legacy record is not checked against the data: if it holds a
    nonzero coefficient for a column that the Design Matrix does not have,
    the seed is announced and then fails with a KeyError on a missing
    column, before any solver is called. *)
Theorem legacy_foreign_column_raises (row : Series) (c : string) (v : float64) :
  seed_in b old_precomputed = true ->
  legacy_row old_coeffs b = Ok row ->
  In (c, v) row -> c <> "seed" -> nonzero v = true ->
  ~ In c (columns X) ->
  exists c',
    ~ In c' (columns X)
    /\ record b = ([Print (WorkingOn b)], Raise (KeyError c')).
Proof.
  intros Hleg Hrow Hin Hseed Hv Hmiss.
  pose proof (bootstrap_resample_columns _ _ _ _ _ _ _ resampled) as Hcols.
  set (rp := series_getitem row
               (filter (fun c0 => negb (c0 =? "seed")) (series_index row))).
  assert (Hrp : In (c, v) rp).
  { apply in_series_getitem_label; [assumption|]. cbn [fst].
    apply filter_In. split.
    - unfold series_index. now apply (in_map fst _ (c, v)).
    - apply negb_true_iff. now apply String.eqb_neq. }
  assert (Hsel : In c (index_where nonzero rp)).
  { unfold index_where, series_index. apply (in_map fst _ (c, v)).
    apply filter_In. split; assumption. }
  destruct (frame_getitem_missing re_X (index_where nonzero rp) c Hsel)
    as [c' [_ [Hno Hraise]]]; [now rewrite Hcols|].
  exists c'. split; [now rewrite <- Hcols|].
  unfold seed_record, regularized_params, refit_selected,
    ebind, lift, invoke, eret.
  cbn [fst snd app]. rewrite resampled. cbn [fst snd app].
  rewrite Hleg. cbn [fst snd app]. rewrite Hrow. cbn [fst snd app].
  fold rp. rewrite Hraise. reflexivity.
Qed.

(** X9. For a seed that neither cache holds, once the grid search and the
    regularized fit have answered (one value per column), selecting the
    columns with a nonzero coefficient cannot fail: the seed always makes
    its four calls, in this order, the grid search on the full data and the
    two fits on the resample, and it ends as the unregularized refit ends. *)
Theorem fitted_seed_reaches_refit (l12 : float64 * float64)
    (values : list float64) :
  seed_in b old_precomputed = false ->
  full_grid_search ext X y (Some 5) = Ok l12 ->
  fit_regularized ext re_y re_X (penalties l12 n re_X) = Ok values ->
  List.length values = List.length (columns X) ->
  exists exog,
    frame_getitem re_X (index_where nonzero (combine (columns X) values))
    = Ok exog
    /\ fst (record b)
       = [ Print (WorkingOn b);
           GridSearch X y (Some 5);
           FitRegularized re_y re_X (penalties l12 n re_X);
           OLSFit re_y exog ]
    /\ snd (record b)
       = (vals <- ols_fit ext re_y exog ;;
          refitted <- wrap_params (columns exog) vals ;;
          Ok (series_setitem
                (series_getitem (combine (columns X) values)
                   (index_where is_zero (combine (columns X) values))
                 ++ refitted)
                "seed" (of_int b))).
Proof.
  intros Hleg Hgrid Hfit Hlen.
  pose proof (bootstrap_resample_columns _ _ _ _ _ _ _ resampled) as Hcols.
  set (rp := combine (columns X) values).
  assert (Hwrap : wrap_params (columns re_X) values = Ok rp).
  { unfold wrap_params. rewrite Hcols, <- Hlen, Nat.eqb_refl. reflexivity. }
  destruct (frame_getitem_present re_X (index_where nonzero rp)) as [exog Hexog].
  { intros c Hc. apply index_where_incl in Hc.
    unfold rp in Hc. rewrite index_combine in Hc by now symmetry.
    now rewrite Hcols. }
  exists exog. split; [exact Hexog|].
  unfold seed_record, regularized_params, refit_selected,
    ebind, lift, invoke, eret.
  cbn [fst snd app]. rewrite resampled. cbn [fst snd app].
  rewrite Hleg. cbn [fst snd app]. rewrite Hgrid. cbn [fst snd app].
  rewrite Hfit. cbn [fst snd app]. rewrite Hwrap. cbn [fst snd app].
  rewrite Hexog. cbn [fst snd app].
  destruct (ols_fit ext re_y exog) as [vals|e]; cbn [fst snd app rbind];
    [|split; reflexivity].
  destruct (wrap_params (columns exog) vals) as [sc|e];
    cbn [fst snd app rbind]; split; reflexivity.
Qed.

End SeedOutcomes.

Lemma legacy_foreign_column_raises_witness :
  exists c',
    ~ In c' (columns toy_X)
    /\ seed_record toy toy_X toy_y 2
         (fst (legacy_cache foreign_column_disk "Yr04_oral_language"))
         (snd (legacy_cache foreign_column_disk "Yr04_oral_language")) 0
       = ([Print (WorkingOn 0)], Raise (KeyError c')).
Proof.
  apply (legacy_foreign_column_raises
           toy toy_X toy_y 2
           (fst (legacy_cache foreign_column_disk "Yr04_oral_language"))
           (snd (legacy_cache foreign_column_disk "Yr04_oral_language"))
           0 toy_X toy_y eq_refl
           [("a", Num 5%Q); ("b", Num 2%Q); ("seed", of_int 0)]
           "b" (Num 2%Q)).
  - reflexivity.
  - reflexivity.
  - simpl. auto.
  - discriminate.
  - reflexivity.
  - simpl. intuition discriminate.
Defined.

Lemma fitted_seed_reaches_refit_witness :
  exists exog,
    frame_getitem toy_X
      (index_where nonzero (combine (columns toy_X) [Num 1%Q; Num 0%Q]))
    = Ok exog
    /\ fst (seed_record toy toy_X toy_y 2 [] [] 0)
       = [ Print (WorkingOn 0);
           GridSearch toy_X toy_y (Some 5);
           FitRegularized toy_y toy_X
                          (penalties (Num 4%Q, Num 1%Q) 2 toy_X);
           OLSFit toy_y exog ].
Proof.
  destruct (fitted_seed_reaches_refit
              toy toy_X toy_y 2 [] [] 0 toy_X toy_y eq_refl
              (Num 4%Q, Num 1%Q) [Num 1%Q; Num 0%Q]
              eq_refl eq_refl eq_refl eq_refl)
    as [exog [Hexog [Hcalls _]]].
  exists exog. split; assumption.
Defined.

(** * Further properties of [main] *)

(** ** Files under a sequence of events *)

Lemma replay_prints (evs : list event) (d : Disk) :
  (forall e, In e evs -> is_print (snd e) = true) -> replay evs d = d.
Proof.
  induction evs as [|[o c] evs IH]; intros Hall; [reflexivity|].
  assert (Hc : is_print c = true) by (apply (Hall (o, c)); now left).
  destruct c; try discriminate. cbn [replay].
  apply IH. intros e He. apply Hall. now right.
Qed.

Lemma replay_keeps_files (p : string) (evs : list event) :
  forall d : Disk,
  read_file d p <> None \/ (exists o df, In (o, ToCsv p df) evs) ->
  read_file (replay evs d) p <> None.
Proof.
  induction evs as [|[o c] evs IH]; intros d H.
  - destruct H as [H | [o [df []]]]. exact H.
  - assert (Hstep : forall d', read_file d' p <> None
                               \/ (exists o' df, In (o', ToCsv p df) evs) ->
                               read_file (replay evs d') p <> None)
      by (intros d'; apply IH).
    destruct c; cbn [replay];
      try (apply Hstep; destruct H as [H | [o' [df' [Heq | Hin]]]];
           [now left | discriminate | right; eauto]).
    apply Hstep.
    destruct (String.eqb path p) eqn:Hp.
    + left. apply String.eqb_eq in Hp. subst path.
      now rewrite read_written_file.
    + destruct H as [H | [o' [df' [Heq | Hin]]]].
      * left. unfold read_file, write_file. cbn [find fst]. now rewrite Hp.
      * inversion Heq; subst. now rewrite String.eqb_refl in Hp.
      * right. eauto.
Qed.

Lemma forallb_filter {A} (p : A -> bool) (l : list A) :
  forallb p (filter p l) = true.
Proof.
  induction l as [|a l IH]; cbn [filter]; [reflexivity|].
  destruct (p a) eqn:Ha; [|exact IH]. cbn [forallb]. now rewrite Ha, IH.
Qed.

(** ** The loop of [main] without the bootstrap *)

Section MainLoop.

Variable ext : External.
Variable g : Globals.

(** Reading only: neither flag set. *)
Lemma plain_loop (responses : list string) (d : Disk) :
  (forall e, In e (fst (for_responses ext g false false responses d)) ->
     fst e = None /\ is_print (snd e) = true)
  /\ (snd (for_responses ext g false false responses d) = Ok tt
      <-> forall r, In r responses -> read_file d (results_path r) <> None)
  /\ (forall e, snd (for_responses ext g false false responses d) = Raise e ->
        exists r, In r responses
                  /\ read_file d (results_path r) = None
                  /\ e = FileNotFoundError (results_path r)).
Proof.
  induction responses as [|r rest IH].
  - cbn [for_responses fst snd]. split; [|split; [split|]].
    + intros e [].
    + intros _ r [].
    + reflexivity.
    + discriminate.
  - cbn [for_responses]. unfold report_or_refit. cbn [negb].
    change ("results/" ++ r ++ ".csv")%string with (results_path r).
    destruct (read_file d (results_path r)) as [df|] eqn:Hfile.
    + cbn [fst snd at_top map replay app].
      destruct IH as [Hev [Hok Hraise]].
      destruct (snd (for_responses ext g false false rest d)) as [[]|e0] eqn:Hrest;
        cbn [fst snd app].
      * split; [|split; [split|]].
        -- intros ev [<- | [<- | H]]; try (split; reflexivity). now apply Hev.
        -- intros _ r' [<- | Hr']; [congruence|].
           now apply (proj1 Hok eq_refl).
        -- reflexivity.
        -- discriminate.
      * split; [|split; [split|]].
        -- intros ev [<- | [<- | H]]; try (split; reflexivity). now apply Hev.
        -- discriminate.
        -- intros Hall. assert (Hno : Raise e0 = Ok tt :> result unit).
           { apply (proj2 Hok). intros r' Hr'. apply Hall. now right. }
           discriminate.
        -- intros e He. inversion He; subst e0.
           destruct (Hraise e eq_refl) as [r' [Hr' [Hnone Heq]]].
           exists r'. repeat split; auto. now right.
    + cbn [fst snd at_top map app]. split; [|split; [split|]].
      * intros ev [<- | []]. split; reflexivity.
      * discriminate.
      * intros Hall. exfalso. apply (Hall r); [now left | exact Hfile].
      * intros e He. inversion He; subst. exists r.
        repeat split; auto. now left.
Qed.

(** Refitting: the first flag set, the second not. *)
Lemma refit_loop (responses : list string) :
  forall d : Disk,
  snd (for_responses ext g true false responses d) = Ok tt ->
  (forall r, In r responses ->
     read_file (replay (fst (for_responses ext g true false responses d)) d)
               (results_path r) <> None)
  /\ (forall o p df,
        In (o, ToCsv p df) (fst (for_responses ext g true false responses d)) ->
        o = None
        /\ (exists r, In r responses /\ p = results_path r)
        /\ forallb (forallb (fun e => negb (contains "trunc" (fst e)))) df
           = true).
Proof.
  induction responses as [|r rest IH]; intros d Hok.
  - split; [intros r [] | intros o p df []].
  - revert Hok. cbn [for_responses]. unfold report_or_refit. cbn [negb].
    change ("results/" ++ r ++ ".csv")%string with (results_path r).
    destruct (pull_classroom_data ext r) as [[X y]|e]; [|discriminate].
    unfold ebind, invoke. cbn [fst snd app].
    destruct (full_grid_search ext X y None) as [l12|e];
      cbn [fst snd app at_top map]; [|discriminate].
    destruct (post_selective_lasso ext X y (fst l12) (snd l12)) as [out|e];
      cbn [fst snd app at_top map]; [|discriminate].
    cbn [replay].
    set (kept := map (filter (fun e => negb (contains "trunc" (fst e)))) out).
    set (d1 := write_file (results_path r) (csv_of kept) d).
    destruct (snd (for_responses ext g true false rest d1)) as [[]|e] eqn:Hrest;
      cbn [fst snd app]; [intros _ | discriminate].
    destruct (IH d1 Hrest) as [Hfiles Hwritten].
    split.
    + intros r' [<- | Hr'].
      * cbn [replay]. fold d1. apply replay_keeps_files. left.
        unfold d1. now rewrite read_written_file.
      * cbn [replay]. fold d1. now apply Hfiles.
    + intros o p df [H | [H | [H | [H | Hin]]]]; try discriminate.
      * inversion H; subst. split; [reflexivity|]. split.
        -- exists r. split; [now left | reflexivity].
        -- unfold kept. rewrite forallb_forall. intros row Hrow.
           apply in_map_iff in Hrow as [row0 [<- _]]. apply forallb_filter.
      * destruct (Hwritten o p df Hin) as [Ho [[r' [Hr' Hp]] Htrunc]].
        split; [assumption|]. split; [|assumption].
        exists r'. split; [now right | assumption].
Qed.

End MainLoop.

(** X10. With neither flag set, [main] only reads and prints: it makes no
    solver call and writes no file, so the files are as before; it ends
    well exactly when every resolved response has its results file, and
    otherwise raises FileNotFoundError for a response whose file is
    missing. *)
Theorem plain_main_reads_only (ext : External) (g : Globals)
    (arg_refit arg_bootstrap arg_response : string) (d : Disk)
    (responses : list string) :
  str2bool (PyStr arg_refit) = Ok false ->
  str2bool (PyStr arg_bootstrap) = Ok false ->
  resolve_responses arg_response = Ok responses ->
  (forall e, In e (fst (main ext g arg_refit arg_bootstrap arg_response d)) ->
     fst e = None /\ is_print (snd e) = true)
  /\ replay (fst (main ext g arg_refit arg_bootstrap arg_response d)) d = d
  /\ (snd (main ext g arg_refit arg_bootstrap arg_response d) = Ok tt
      <-> forall r, In r responses -> read_file d (results_path r) <> None)
  /\ (forall e,
        snd (main ext g arg_refit arg_bootstrap arg_response d) = Raise e ->
        exists r, In r responses
                  /\ read_file d (results_path r) = None
                  /\ e = FileNotFoundError (results_path r)).
Proof.
  intros Hrefit Hboot Hresp.
  unfold main. rewrite Hrefit, Hboot, Hresp. cbn [fst snd].
  destruct (plain_loop ext g responses d) as [Hev [Hok Hraise]].
  assert (Hprints : forall e,
            In e (at_top [Print (ParsedArgs false false arg_response)]
                  ++ fst (for_responses ext g false false responses d)) ->
            fst e = None /\ is_print (snd e) = true).
  { intros e [<- | He]; [split; reflexivity | now apply Hev]. }
  split; [exact Hprints|]. split; [|split; assumption].
  apply replay_prints. intros e He. now apply Hprints.
Qed.

Lemma plain_main_reads_only_witness :
  snd (main toy module_globals "no" "0" "ORAL" results_disk) = Ok tt.
Proof.
  destruct (plain_main_reads_only toy module_globals "no" "0" "ORAL"
              results_disk ["Yr04_oral_language"] eq_refl eq_refl eq_refl)
    as [_ [_ [Hok _]]].
  apply Hok. intros r [<- | []]. discriminate.
Defined.

(** X11. A refit can be read back.  When [main] ends well with the refit
    flag set and the bootstrap flag not, every file it wrote is the results
    file of a resolved response and holds no column whose name contains
    trunc, and a later run of [main] with neither flag set, on the same
    selector and the files left, ends well too. *)
Theorem refit_then_plain_main (ext : External) (g : Globals)
    (arg_refit arg_plain arg_bootstrap arg_response : string) (d : Disk)
    (responses : list string) :
  str2bool (PyStr arg_refit) = Ok true ->
  str2bool (PyStr arg_plain) = Ok false ->
  str2bool (PyStr arg_bootstrap) = Ok false ->
  resolve_responses arg_response = Ok responses ->
  snd (main ext g arg_refit arg_bootstrap arg_response d) = Ok tt ->
  (forall o p df,
     In (o, ToCsv p df)
        (fst (main ext g arg_refit arg_bootstrap arg_response d)) ->
     (exists r, In r responses /\ p = results_path r)
     /\ forallb (forallb (fun e => negb (contains "trunc" (fst e)))) df = true)
  /\ snd (main ext g arg_plain arg_bootstrap arg_response
               (replay (fst (main ext g arg_refit arg_bootstrap
                                  arg_response d)) d))
     = Ok tt.
Proof.
  intros Hrefit Hplain Hboot Hresp.
  unfold main. rewrite Hrefit, Hplain, Hboot, Hresp. cbn [fst snd].
  intros Hok. destruct (refit_loop ext g responses d Hok) as [Hfiles Hwritten].
  split.
  - intros o p df [H | Hin]; [discriminate|].
    destruct (Hwritten o p df Hin) as [_ [Hr Htrunc]]. auto.
  - cbn [at_top map app replay].
    apply (plain_loop ext g responses). exact Hfiles.
Qed.

Lemma refit_then_plain_main_witness :
  snd (main toy_selective module_globals "false" "false" "literacy"
         (replay (fst (main toy_selective module_globals "true" "false"
                            "literacy" [])) []))
  = Ok tt.
Proof.
  exact (proj2 (refit_then_plain_main
                  toy_selective module_globals "true" "false" "false"
                  "literacy" [] ["Yr04_literacy_resources"]
                  eq_refl eq_refl eq_refl eq_refl eq_refl)).
Defined.

(** ** More on the response selector *)

(** X12. Each of the four response names that the sentinel stands for,
    given back as the selector in any case, selects exactly itself. *)
Theorem response_names_select_themselves (name s : string) :
  In name all_responses -> case_variant name s ->
  resolve_responses s = Ok [name].
Proof.
  intros Hname Hv. apply case_variant_lower in Hv.
  unfold resolve_responses. rewrite Hv.
  cbn [all_responses In] in Hname.
  repeat destruct Hname as [<- | Hname]; try reflexivity. contradiction.
Qed.

Lemma response_names_select_themselves_witness :
  resolve_responses "YR04_Print_Motivation" = Ok ["Yr04_print_motivation"].
Proof.
  apply (response_names_select_themselves
           "Yr04_print_motivation" "YR04_Print_Motivation").
  - simpl. auto.
  - spell_case_variant.
Defined.

(** X13. Whatever the selector, the responses it resolves to are never none
    and are all among the four names, without repeats; unless the selector
    is the sentinel, in any case, there is exactly one. *)
Theorem resolved_responses_known (s : string) (responses : list string) :
  resolve_responses s = Ok responses ->
  responses <> []
  /\ incl responses all_responses
  /\ NoDup responses
  /\ (lower s <> "all" -> List.length responses = 1).
Proof.
  unfold resolve_responses.
  destruct (lower s =? "all") eqn:Hall.
  - intros H. inversion H; subst. apply String.eqb_eq in Hall.
    split; [discriminate|]. split; [apply incl_refl|]. split.
    + repeat constructor; simpl; intuition discriminate.
    + intros Hne. contradiction.
  - assert (Hone : forall name, In name all_responses ->
              [name] <> []
              /\ incl [name] all_responses
              /\ NoDup [name]
              /\ (lower s <> "all" -> List.length [name] = 1)).
    { intros name Hname. split; [discriminate|]. split.
      - intros c [<- | []]. exact Hname.
      - split; [repeat constructor; simpl; tauto | reflexivity]. }
    destruct (contains "oral" (lower s)).
    { intros H. inversion H; subst. apply Hone. simpl. auto. }
    destruct (contains "literacy" (lower s)).
    { intros H. inversion H; subst. apply Hone. simpl. auto. }
    destruct (contains "print" (lower s) && contains "knowledge" (lower s)).
    { intros H. inversion H; subst. apply Hone. simpl. auto. }
    destruct (contains "print" (lower s) && contains "motivation" (lower s)).
    { intros H. inversion H; subst. apply Hone. simpl. auto. }
    discriminate.
Qed.

Lemma resolved_responses_known_witness :
  incl ["Yr04_oral_language"] all_responses.
Proof.
  exact (proj1 (proj2 (resolved_responses_known
                         "moral support" ["Yr04_oral_language"] eq_refl))).
Defined.

(** * The table persisted after each seed *)

Section TableAfterSeed.

Variable ext : External.
Variables (X : Frame) (y : list float64) (n : nat).
Variable precomputed : list float64.
Variables (old_coeffs : DataFrame) (old_precomputed : list float64).
Variable path : string.

Local Abbreviation record := (seed_record ext X y n old_coeffs old_precomputed).
Local Abbreviation loop :=
  (bootstrap_loop ext X y n precomputed old_coeffs old_precomputed path).
Local Abbreviation todo := (fun b => negb (seed_in b precomputed)).
Local Abbreviation rec := (fun b => record_of (record b)).

Lemma loop_table_after_seed (len : nat) :
  forall (a : nat) (coeffs : DataFrame) (o : option nat) (p : string)
         (df : DataFrame),
  In (o, ToCsv p df) (fst (loop (seq a len) coeffs)) ->
  exists b,
    o = Some b /\ a <= b < a + len /\ seed_in b precomputed = false
    /\ df = coeffs ++ map rec (filter todo (seq a (S b - a)))
    /\ Forall (fun b' => exists r, snd (record b') = Ok r)
              (filter todo (seq a (S b - a))).
Proof.
  induction len as [|len IH]; intros a coeffs o p df Hin; [contradiction|].
  cbn [seq] in Hin.
  assert (Hlater : forall coeffs1,
            In (o, ToCsv p df) (fst (loop (seq (S a) len) coeffs1)) ->
            exists b,
              o = Some b /\ S a <= b < a + S len
              /\ seed_in b precomputed = false
              /\ df = coeffs1 ++ map rec (filter todo (seq (S a) (S b - S a)))
              /\ Forall (fun b' => exists r, snd (record b') = Ok r)
                        (filter todo (seq (S a) (S b - S a)))
              /\ seq a (S b - a) = a :: seq (S a) (S b - S a)).
  { intros coeffs1 H1.
    destruct (IH (S a) coeffs1 o p df H1) as [b [Ho [Hb [Ht [Hdf Hall]]]]].
    exists b. repeat split; try assumption; try lia.
    replace (S b - a) with (S (S b - S a)) by lia. reflexivity. }
  destruct (seed_in a precomputed) eqn:Hskip.
  - rewrite (loop_skip ext X y n precomputed old_coeffs old_precomputed path
               a (seq (S a) len) coeffs Hskip) in Hin.
    destruct (Hlater coeffs Hin) as [b [Ho [Hb [Ht [Hdf [Hall Hseq]]]]]].
    exists b. rewrite Hseq. cbn [filter]. rewrite Hskip. cbn [negb].
    repeat split; try assumption; lia.
  - destruct (snd (record a)) as [r|e] eqn:Hrec.
    + rewrite (loop_ok ext X y n precomputed old_coeffs old_precomputed path
                 a (seq (S a) len) coeffs r Hskip Hrec) in Hin.
      cbn [fst] in Hin. apply in_app_or in Hin as [Hin | Hin].
      * apply in_at_seed in Hin as [-> Hin]. exists a.
        replace (S a - a) with 1 by lia. cbn [seq filter].
        rewrite Hskip. cbn [negb map].
        rewrite (record_of_ok ext X y n old_coeffs old_precomputed a r Hrec).
        apply in_app_or in Hin as [Hin | [Hin | []]].
        -- destruct (record_calls ext X y n old_coeffs old_precomputed a)
             as [rest [Hcalls Hquiet]].
           rewrite Hcalls in Hin. destruct Hin as [Hin | Hin]; [discriminate|].
           rewrite forallb_forall in Hquiet. specialize (Hquiet _ Hin).
           simpl in Hquiet. discriminate.
        -- inversion Hin; subst.
           repeat split; try reflexivity; try assumption; try lia.
           constructor; eauto.
      * destruct (Hlater (coeffs ++ [r]) Hin)
          as [b [Ho [Hb [Ht [Hdf [Hall Hseq]]]]]].
        exists b. rewrite Hseq. cbn [filter]. rewrite Hskip. cbn [negb map].
        rewrite (record_of_ok ext X y n old_coeffs old_precomputed a r Hrec).
        rewrite <- app_assoc in Hdf.
        repeat split; try assumption; try lia.
        constructor; eauto.
    + rewrite (loop_raise ext X y n precomputed old_coeffs old_precomputed path
                 a (seq (S a) len) coeffs e Hskip Hrec) in Hin.
      cbn [fst] in Hin. apply in_at_seed in Hin as [_ Hin].
      destruct (record_calls ext X y n old_coeffs old_precomputed a)
        as [rest [Hcalls Hquiet]].
      rewrite Hcalls in Hin. destruct Hin as [Hin | Hin]; [discriminate|].
      rewrite forallb_forall in Hquiet. specialize (Hquiet _ Hin).
      simpl in Hquiet. discriminate.
Qed.

End TableAfterSeed.

(** X14. Every table that a run writes is written during a seed below the
    count that the cache lacked, and it holds exactly the rows loaded from
    the cache followed by the records of the lacking seeds up to and
    including that seed, in increasing order, all of which were computed
    without error: one more record at each write, none ever dropped. *)
Theorem table_written_after_seed (ext : External) (g : Globals)
    (response : string) (d : Disk) (X : Frame) (y : list float64) (N : nat)
    (o : option nat) (p : string) (df : DataFrame) :
  pull_classroom_data ext response = Ok (X, y) ->
  lookup_global g "num_bootstrap_samples" = Ok (PyInt N) ->
  In (o, ToCsv p df) (fst (cte_boostrap ext g response d)) ->
  exists b,
    o = Some b /\ b < N
    /\ seed_in b (snd (current_cache d response)) = false
    /\ df = fst (current_cache d response)
            ++ map (fun b' => record_of
                      (seed_record ext X y (List.length (rows X))
                         (fst (legacy_cache d response))
                         (snd (legacy_cache d response)) b'))
                   (filter (fun b' => negb (seed_in b'
                                       (snd (current_cache d response))))
                           (seq 0 (S b)))
    /\ List.length df
       = List.length (fst (current_cache d response))
         + List.length (filter (fun b' => negb (seed_in b'
                                          (snd (current_cache d response))))
                               (seq 0 (S b))).
Proof.
  intros Hpull Hcount.
  rewrite (cte_boostrap_unfold ext g response d X y N Hpull Hcount).
  cbn [fst]. intros Hin.
  apply loop_table_after_seed in Hin as [b [Ho [Hb [Ht [Hdf _]]]]].
  rewrite Nat.sub_0_r in Hdf.
  exists b. repeat split; try assumption; try lia.
  rewrite Hdf, length_app, length_map. reflexivity.
Qed.

Lemma table_written_after_seed_witness :
  exists b,
    Some 1 = Some b /\ b < 2
    /\ List.length
         [ [("a_interaction", Num 0%Q); ("a", Num 3%Q); ("seed", of_int 0)];
           [("a_interaction", Num 0%Q); ("a", Num 3%Q); ("seed", of_int 1)] ]
       = List.length (fst (current_cache [] "Yr04_oral_language"))
         + List.length
             (filter (fun b' => negb (seed_in b'
                                  (snd (current_cache [] "Yr04_oral_language"))))
                     (seq 0 (S b))).
Proof.
  destruct (table_written_after_seed
              toy (globals_with_count 2) "Yr04_oral_language" []
              toy_X toy_y 2 (Some 1)
              (bootstrapped_data_path "Yr04_oral_language")
              [ [("a_interaction", Num 0%Q); ("a", Num 3%Q); ("seed", of_int 0)];
                [("a_interaction", Num 0%Q); ("a", Num 3%Q); ("seed", of_int 1)] ]
              eq_refl eq_refl)
    as [b [Ho [Hb [_ [_ Hlen]]]]].
  - vm_compute. repeat (first [left; reflexivity | right]).
  - exists b. auto.
Defined.
